(** * aiographite: the wire encoders and the sending session

    A shallow embedding of [aiographite/aiographitesend.py].

    Python values are modelled as follows.
    - [str] is a list of Unicode code points ([pystr]); [bytes] is a list of
      octets ([bytes]); both are lists of [Z].
    - [int] is [Z]; a [float] that is finite is the rational it denotes.
    - an exception is a constructor of [exn]; a call that may raise returns a
      [result].
    - a coroutine ([async def]) is a computation over the [world]; it runs
      when it is awaited, and only then. *)

From Stdlib Require Import String Ascii DecimalString HexadecimalString.
From Stdlib Require Import ZArith QArith List Lia Bool.
Import ListNotations.
Local Open Scope Z_scope.

(** ** Python values *)

Definition pystr := list Z.
Definition bytes := list Z.

(** A string literal of the source, as code points. *)
Definition lit (s : string) : pystr :=
  map (fun a => Z.of_N (N_of_ascii a)) (list_ascii_of_string s).

Definition valid_codepoint (c : Z) : Prop := 0 <= c < 1114112.
Definition valid_str (s : pystr) : Prop := Forall valid_codepoint s.

Inductive exn : Set :=
| AttributeError
| NameError
| ValueError
| OverflowError
| UnicodeEncodeError
| PicklingError
| struct_error
| socket_gaierror
| ConnectionResetError
| AioGraphiteSendException.

Inductive result (A : Type) : Type :=
| Ok (a : A)
| Raise (e : exn).
Arguments Ok {A} a.
Arguments Raise {A} e.

Definition rbind {A B} (r : result A) (k : A -> result B) : result B :=
  match r with
  | Ok a => k a
  | Raise e => Raise e
  end.

Declare Scope result_scope.
Delimit Scope result_scope with result.
Notation "x <- r ;; k" := (rbind r (fun x => k))
  (at level 61, r at next level, right associativity) : result_scope.

(** [str(n)] for an [int]. *)
Definition str_int (n : Z) : pystr := lit (DecimalString.NilZero.string_of_int (Z.to_int n)).

(** [sep.join(parts)]. *)
Fixpoint join (sep : pystr) (parts : list pystr) : pystr :=
  match parts with
  | [] => []
  | [p] => p
  | p :: rest => p ++ sep ++ join sep rest
  end.

(** [s.encode('ascii')]: the code points themselves, or [UnicodeEncodeError]
    as soon as one is not below 128. *)
Definition encode_ascii (s : pystr) : result bytes :=
  if forallb (fun c => (0 <=? c) && (c <? 128)) s then Ok s
  else Raise UnicodeEncodeError.

(** ** PlaintextProtocol *)

Module PlaintextProtocol.

Definition data_formate_function (metric : pystr) (value timestamp : Z) : pystr :=
  let formatted_data := join (lit " ") [metric; str_int value; str_int timestamp] in
  formatted_data ++ [10].

Definition generate_message_function (listOfPlaintext : list pystr) : result bytes :=
  encode_ascii (join [] listOfPlaintext).

End PlaintextProtocol.

(** A string of ASCII characters. *)
Definition ascii_str (s : pystr) : Prop := Forall (fun c => 0 <= c < 128) s.

(** [data_formate_function] on a sample [(metric, value, timestamp)]. *)
Definition format_line (sample : pystr * Z * Z) : pystr :=
  let '(metric, value, timestamp) := sample in
  PlaintextProtocol.data_formate_function metric value timestamp.

(** ** The standard library's [pickle.dumps(..., protocol=2)]

    The pickler as CPython runs it on the one shape this program hands it: a
    list of [(str, (int, int))] tuples whose strings and tuples are distinct
    objects, so that every object is written out and entered in the memo
    (a [BINPUT]) and none is fetched back from it. *)

Module Pickle.

Definition unit_t : Type := pystr * (Z * Z).

(** The identifier of a unit is a string: its code points are code points. *)
Definition valid_unit (u : unit_t) : Prop := valid_str (fst u).

Definition PROTO := 128.
Definition STOP := 46.
Definition MARK := 40.
Definition EMPTY_LIST := 93.
Definition APPEND := 97.
Definition APPENDS := 101.
Definition TUPLE2 := 134.
Definition BINPUT := 113.
Definition LONG_BINPUT := 114.
Definition BINGET := 104.
Definition LONG_BINGET := 106.
Definition BINUNICODE := 88.
Definition BININT := 74.
Definition BININT1 := 75.
Definition BININT2 := 77.
Definition LONG1 := 138.
Definition LONG4 := 139.
Definition BATCHSIZE : nat := 1000.

(** [n] octets of [u], least significant first. *)
Fixpoint le_bytes (n : nat) (u : Z) : bytes :=
  match n with
  | O => []
  | S k => u mod 256 :: le_bytes k (u / 256)
  end.

(** The unsigned integer that octets give, least significant first. *)
Definition le_value (bs : bytes) : Z :=
  fold_right (fun b acc => b + 256 * acc) 0 bs.

Definition len (bs : bytes) : Z := Z.of_nat (length bs).

(** UTF-8 of one code point (surrogates pass through, as the pickler asks). *)
Definition utf8_char (c : Z) : bytes :=
  if c <? 128 then [c]
  else if c <? 2048 then [192 + c / 64; 128 + c mod 64]
  else if c <? 65536 then [224 + c / 4096; 128 + (c / 64) mod 64; 128 + c mod 64]
  else [240 + c / 262144; 128 + (c / 4096) mod 64; 128 + (c / 64) mod 64; 128 + c mod 64].

Definition utf8_encode (s : pystr) : bytes := flat_map utf8_char s.

(** [int.bit_length]. *)
Definition bit_length (x : Z) : Z :=
  if x =? 0 then 0 else Z.log2 (Z.abs x) + 1.

(** [pickle.encode_long]: the shortest two's-complement form, little endian. *)
Definition encode_long (x : Z) : bytes :=
  if x =? 0 then []
  else
    let nbytes := Z.to_nat (bit_length x / 8 + 1) in
    let result := le_bytes nbytes (x mod 256 ^ Z.of_nat nbytes) in
    if (x <? 0) && (1 <? Z.of_nat nbytes)
       && (nth (nbytes - 1) result 0 =? 255)
       && (128 <=? nth (nbytes - 2) result 0)
    then firstn (nbytes - 1) result
    else result.

(** The pickler writes octets and numbers the objects it memoizes; a step
    is run at the current memo size and yields its octets and the new size. *)
Definition pickler := Z -> result (bytes * Z).

Definition write (bs : bytes) : pickler := fun idx => Ok (bs, idx).

Definition fail (e : exn) : pickler := fun _ => Raise e.

Definition and_then (p q : pickler) : pickler := fun idx =>
  match p idx with
  | Ok (b1, i1) =>
      match q i1 with
      | Ok (b2, i2) => Ok (b1 ++ b2, i2)
      | Raise e => Raise e
      end
  | Raise e => Raise e
  end.

Declare Scope pickler_scope.
Delimit Scope pickler_scope with pickler.
Notation "p ;; q" := (and_then p q)
  (at level 61, right associativity) : pickler_scope.
Local Open Scope pickler_scope.

Definition memo_put : pickler := fun idx =>
  if idx <? 256 then Ok ([BINPUT; idx], idx + 1)
  else if idx <=? 4294967295 then Ok (LONG_BINPUT :: le_bytes 4 idx, idx + 1)
  else Raise PicklingError.

Definition save_long (x : Z) : pickler :=
  if (-2147483648 <=? x) && (x <=? 2147483647) then
    let pdata := le_bytes 4 (x mod 4294967296) in
    if negb (nth 3 pdata 0 =? 0) || negb (nth 2 pdata 0 =? 0) then
      write (BININT :: pdata)
    else if negb (nth 1 pdata 0 =? 0) then
      write (BININT2 :: firstn 2 pdata)
    else
      write (BININT1 :: firstn 1 pdata)
  else
    let data := encode_long x in
    if len data <? 256 then write (LONG1 :: len data :: data)
    else if len data <=? 2147483647 then write (LONG4 :: le_bytes 4 (len data) ++ data)
    else fail OverflowError.

Definition save_unicode (s : pystr) : pickler :=
  let encoded := utf8_encode s in
  if len encoded <=? 4294967295 then
    write (BINUNICODE :: le_bytes 4 (len encoded) ++ encoded) ;; memo_put
  else fail OverflowError.

(** [(metric, (timestamp, value))]: the elements, then [TUPLE2]. *)
Definition save_unit (u : unit_t) : pickler :=
  let '(metric, (timestamp, value)) := u in
  save_unicode metric ;;
  (save_long timestamp ;; save_long value ;; write [TUPLE2] ;; memo_put) ;;
  write [TUPLE2] ;; memo_put.

(** [batch_list] for a list of two items or more: runs of [BATCHSIZE]
    items between [MARK] and [APPENDS]; [this_batch] counts the items of
    the run that is open. *)
Fixpoint batch_list (items : list unit_t) (this_batch : nat) : pickler :=
  match items with
  | [] => if Nat.eqb this_batch 0 then write [] else write [APPENDS]
  | item :: rest =>
      (if Nat.eqb this_batch 0 then write [MARK] else write []) ;;
      save_unit item ;;
      (if Nat.eqb (S this_batch) BATCHSIZE
       then write [APPENDS] ;; batch_list rest 0
       else batch_list rest (S this_batch))
  end.

Definition save_list (obj : list unit_t) : pickler :=
  write [EMPTY_LIST] ;; memo_put ;;
  match obj with
  | [] => write []
  | [item] => save_unit item ;; write [APPEND]
  | _ => batch_list obj 0
  end.

Definition dumps (obj : list unit_t) : result bytes :=
  match (write [PROTO; 2] ;; save_list obj ;; write [STOP]) 0 with
  | Ok (payload, _) => Ok payload
  | Raise e => Raise e
  end.

(** The step [p], run at memo size [idx], succeeds, leaves the memo at size
    [idx'] and writes at most [n] octets. *)
Definition emits (p : pickler) (idx idx' n : Z) : Prop :=
  exists bs, p idx = Ok (bs, idx') /\ len bs <= n.

(** A unit of ordinary size: an identifier of at most 1000 code points, a
    timestamp and a value of 64 bits. *)
Definition small_unit (u : unit_t) : Prop :=
  let '(metric, (timestamp, value)) := u in
  Z.of_nat (length metric) <= 1000
  /\ - 2 ^ 63 <= timestamp < 2 ^ 63
  /\ - 2 ^ 63 <= value < 2 ^ 63.

End Pickle.

(** ** The standard library's [pickle.loads]

    The unpickler of the receiving side, as a machine over a stack and a
    memo, for the opcodes the pickler above can write (and the two that fetch
    from the memo); any other opcode stops it with an error. *)

Module Unpickler.

Import Pickle.

#[warnings="-register-all"]
Inductive pyobj : Type :=
| PInt (z : Z)
| PStr (s : pystr)
| PTuple2 (a b : pyobj)
| PList (items : list pyobj).

Inductive stack_item : Type :=
| Obj (o : pyobj)
| Mark.

Definition stack_t := list stack_item.
Definition memo_t := list (Z * pyobj).

(** The first [n] octets and the rest, when there are that many. *)
Fixpoint take (n : nat) (bs : bytes) : option (bytes * bytes) :=
  match n with
  | O => Some ([], bs)
  | S k =>
      match bs with
      | [] => None
      | b :: rest =>
          match take k rest with
          | Some (front, back) => Some (b :: front, back)
          | None => None
          end
      end
  end.

(** An unsigned little-endian integer of [n] octets. *)
Definition read_le (n : nat) (bs : bytes) : option (Z * bytes) :=
  match take n bs with
  | Some (front, back) => Some (le_value front, back)
  | None => None
  end.

(** [pickle.decode_long]: two's complement, little endian. *)
Definition decode_long (data : bytes) : Z :=
  let u := le_value data in
  if 128 <=? nth (length data - 1) data 0 then u - 256 ^ Z.of_nat (length data) else u.

Definition is_continuation (b : Z) : bool := (128 <=? b) && (b <? 192).

(** UTF-8 decoding, surrogates let through; overlong forms are refused. *)
Fixpoint utf8_decode (bs : bytes) : option pystr :=
  match bs with
  | [] => Some []
  | b0 :: r0 =>
      if (0 <=? b0) && (b0 <? 128) then
        option_map (cons b0) (utf8_decode r0)
      else if (194 <=? b0) && (b0 <? 224) then
        match r0 with
        | b1 :: r1 =>
            if is_continuation b1
            then option_map (cons ((b0 - 192) * 64 + (b1 - 128))) (utf8_decode r1)
            else None
        | _ => None
        end
      else if (224 <=? b0) && (b0 <? 240) then
        match r0 with
        | b1 :: b2 :: r2 =>
            let c := (b0 - 224) * 4096 + (b1 - 128) * 64 + (b2 - 128) in
            if is_continuation b1 && is_continuation b2 && (2048 <=? c)
            then option_map (cons c) (utf8_decode r2)
            else None
        | _ => None
        end
      else if (240 <=? b0) && (b0 <? 245) then
        match r0 with
        | b1 :: b2 :: b3 :: r3 =>
            let c := (b0 - 240) * 262144 + (b1 - 128) * 4096 + (b2 - 128) * 64 + (b3 - 128) in
            if is_continuation b1 && is_continuation b2 && is_continuation b3
               && (65536 <=? c) && (c <? 1114112)
            then option_map (cons c) (utf8_decode r3)
            else None
        | _ => None
        end
      else None
  end.

(** The items above the topmost mark, oldest first, and the stack under it. *)
Fixpoint pop_mark (stack : stack_t) : option (list pyobj * stack_t) :=
  match stack with
  | [] => None
  | Mark :: under => Some ([], under)
  | Obj o :: rest =>
      match pop_mark rest with
      | Some (items, under) => Some (items ++ [o], under)
      | None => None
      end
  end.

Fixpoint memo_get (memo : memo_t) (i : Z) : option pyobj :=
  match memo with
  | [] => None
  | (j, o) :: rest => if i =? j then Some o else memo_get rest i
  end.

Inductive outcome : Type :=
| Continue (bs : bytes) (stack : stack_t) (memo : memo_t)
| Stop (value : pyobj)
| Error.

Definition push_le (n : nat) (signed_bits : option Z) (bs : bytes)
    (stack : stack_t) (memo : memo_t) : outcome :=
  match read_le n bs with
  | Some (u, rest) =>
      let x := match signed_bits with
               | Some k => if 2 ^ (k - 1) <=? u then u - 2 ^ k else u
               | None => u
               end in
      Continue rest (Obj (PInt x) :: stack) memo
  | None => Error
  end.

Definition push_long (n : Z) (bs : bytes) (stack : stack_t) (memo : memo_t) : outcome :=
  if n <? 0 then Error
  else match take (Z.to_nat n) bs with
       | Some (data, rest) => Continue rest (Obj (PInt (decode_long data)) :: stack) memo
       | None => Error
       end.

Definition put (i : Z) (bs : bytes) (stack : stack_t) (memo : memo_t) : outcome :=
  match stack with
  | Obj o :: _ => Continue bs stack ((i, o) :: memo)
  | _ => Error
  end.

Definition get (i : Z) (bs : bytes) (stack : stack_t) (memo : memo_t) : outcome :=
  match memo_get memo i with
  | Some o => Continue bs (Obj o :: stack) memo
  | None => Error
  end.

(** One opcode. *)
Definition step (bs : bytes) (stack : stack_t) (memo : memo_t) : outcome :=
  match bs with
  | [] => Error
  | op :: rest =>
      if op =? PROTO then
        match rest with
        | version :: rest' =>
            if (0 <=? version) && (version <=? 5) then Continue rest' stack memo else Error
        | [] => Error
        end
      else if op =? STOP then
        match stack with
        | Obj value :: _ => Stop value
        | _ => Error
        end
      else if op =? MARK then Continue rest (Mark :: stack) memo
      else if op =? EMPTY_LIST then Continue rest (Obj (PList []) :: stack) memo
      else if op =? BINPUT then
        match read_le 1 rest with
        | Some (i, rest') => put i rest' stack memo
        | None => Error
        end
      else if op =? LONG_BINPUT then
        match read_le 4 rest with
        | Some (i, rest') => put i rest' stack memo
        | None => Error
        end
      else if op =? BINGET then
        match read_le 1 rest with
        | Some (i, rest') => get i rest' stack memo
        | None => Error
        end
      else if op =? LONG_BINGET then
        match read_le 4 rest with
        | Some (i, rest') => get i rest' stack memo
        | None => Error
        end
      else if op =? BINUNICODE then
        match read_le 4 rest with
        | Some (n, rest') =>
            match take (Z.to_nat n) rest' with
            | Some (data, rest'') =>
                match utf8_decode data with
                | Some s => Continue rest'' (Obj (PStr s) :: stack) memo
                | None => Error
                end
            | None => Error
            end
        | None => Error
        end
      else if op =? BININT then push_le 4 (Some 32) rest stack memo
      else if op =? BININT1 then push_le 1 None rest stack memo
      else if op =? BININT2 then push_le 2 None rest stack memo
      else if op =? LONG1 then
        match read_le 1 rest with
        | Some (n, rest') => push_long n rest' stack memo
        | None => Error
        end
      else if op =? LONG4 then
        match read_le 4 rest with
        | Some (u, rest') =>
            push_long (if 2147483648 <=? u then u - 4294967296 else u) rest' stack memo
        | None => Error
        end
      else if op =? TUPLE2 then
        match stack with
        | Obj b :: Obj a :: under => Continue rest (Obj (PTuple2 a b) :: under) memo
        | _ => Error
        end
      else if op =? APPEND then
        match stack with
        | Obj value :: Obj (PList items) :: under =>
            Continue rest (Obj (PList (items ++ [value])) :: under) memo
        | _ => Error
        end
      else if op =? APPENDS then
        match pop_mark stack with
        | Some (values, Obj (PList items) :: under) =>
            Continue rest (Obj (PList (items ++ values)) :: under) memo
        | _ => Error
        end
      else Error
  end.

(** The machine run for at most [fuel] opcodes. *)
Fixpoint run (fuel : nat) (bs : bytes) (stack : stack_t) (memo : memo_t) : option pyobj :=
  match fuel with
  | O => None
  | S fuel' =>
      match step bs stack memo with
      | Continue bs' stack' memo' => run fuel' bs' stack' memo'
      | Stop value => Some value
      | Error => None
      end
  end.

(** [pickle.loads]: an opcode takes at least one octet, so the length of the
    input is fuel enough. *)
Definition loads (data : bytes) : option pyobj := run (length data) data [] [].

(** The object as a list of [(str, (int, int))] tuples, if it is one. *)
Definition as_unit (o : pyobj) : option unit_t :=
  match o with
  | PTuple2 (PStr metric) (PTuple2 (PInt timestamp) (PInt value)) =>
      Some (metric, (timestamp, value))
  | _ => None
  end.

Fixpoint as_units (items : list pyobj) : option (list unit_t) :=
  match items with
  | [] => Some []
  | o :: rest =>
      match as_unit o, as_units rest with
      | Some u, Some us => Some (u :: us)
      | _, _ => None
      end
  end.

(** What the receiver gets out of a payload. *)
Definition loads_units (data : bytes) : option (list unit_t) :=
  match loads data with
  | Some (PList items) => as_units items
  | _ => None
  end.

(** The object a unit is, once loaded. *)
Definition of_unit (u : unit_t) : pyobj :=
  let '(metric, (timestamp, value)) := u in
  PTuple2 (PStr metric) (PTuple2 (PInt timestamp) (PInt value)).

(** The machine goes from one configuration to another, each step eating
    at least one octet. *)
Inductive steps : bytes -> stack_t -> memo_t -> bytes -> stack_t -> memo_t -> Prop :=
| steps_refl : forall bs stack memo, steps bs stack memo bs stack memo
| steps_step : forall bs stack memo bs1 stack1 memo1 bs2 stack2 memo2,
    step bs stack memo = Continue bs1 stack1 memo1 ->
    (length bs1 < length bs)%nat ->
    steps bs1 stack1 memo1 bs2 stack2 memo2 ->
    steps bs stack memo bs2 stack2 memo2.

(** The stack while a batch is written: the list alone, or the list, a
    mark, and the items pushed since the mark. *)
Definition batch_stack (pending acc : list pyobj) (under : stack_t) : stack_t :=
  match pending with
  | [] => Obj (PList acc) :: under
  | _ :: _ => map Obj (rev pending) ++ Mark :: Obj (PList acc) :: under
  end.

End Unpickler.

(** ** [struct.pack("!L", n)] and its inverse *)

Definition struct_pack_L (n : Z) : result bytes :=
  if (0 <=? n) && (n <=? 4294967295)
  then Ok (rev (Pickle.le_bytes 4 n))
  else Raise struct_error.

(** [int.from_bytes(bs, 'big')]. *)
Definition from_bytes_big (bs : bytes) : Z :=
  fold_left (fun acc b => acc * 256 + b) bs 0.

(** ** PickleProtocol *)

Module PickleProtocol.

Definition data_formate_function (metric : pystr) (value timestamp : Z) : Pickle.unit_t :=
  (metric, (timestamp, value)).

Definition generate_message_function (listOfMetricTuples : list Pickle.unit_t) : result bytes :=
  (payload <- Pickle.dumps listOfMetricTuples ;;
   header <- struct_pack_L (Pickle.len payload) ;;
   let message := header ++ payload in
   Ok message)%result.

End PickleProtocol.

(** The two protocol classes answer the same two methods. *)
Record Protocol : Type := {
  EncodedUnit : Type;
  data_formate_function : pystr -> Z -> Z -> EncodedUnit;
  generate_message_function : list EncodedUnit -> result bytes
}.

Definition PlaintextProtocol_ : Protocol := {|
  EncodedUnit := pystr;
  data_formate_function := PlaintextProtocol.data_formate_function;
  generate_message_function := PlaintextProtocol.generate_message_function
|}.

Definition PickleProtocol_ : Protocol := {|
  EncodedUnit := Pickle.unit_t;
  data_formate_function := PickleProtocol.data_formate_function;
  generate_message_function := PickleProtocol.generate_message_function
|}.

Definition DEFAULT_GRAPHITE_PLAINTEXT_PORT := 2003.
Definition DEFAULT_GRAPHITE_PICKLE_PORT := 2004.

(** The names the module binds at its top level; a name a function does not
    assign is looked up here. *)
Definition module_globals : list string :=
  ["asyncio"; "GraphiteEncoder"; "pickle"; "struct"; "socket"; "os"; "time";
   "Dict"; "Tuple"; "List";
   "DEFAULT_GRAPHITE_PLAINTEXT_PORT"; "DEFAULT_GRAPHITE_PICKLE_PORT";
   "SUPPORT_PROTOCOLS"; "AioGraphiteSendException"; "PlaintextProtocol";
   "PickleProtocol"; "AIOGraphite"; "_dummy_message_plaintext_formate";
   "_dummy_message_pickle_formate"; "main"]%string.

Definition name_is_bound (name : string) : bool :=
  existsb (String.eqb name) module_globals.

(** ** Numbers a caller may pass as a timestamp *)

Inductive pynum : Set :=
| PyInt (z : Z)
| PyFloat (q : Q).

(** Truth value: zero is false. *)
Definition truthy (n : pynum) : bool :=
  match n with
  | PyInt z => negb (z =? 0)
  | PyFloat q => negb (Qnum q =? 0)
  end.

(** [int(n)]: toward zero. *)
Definition int_ (n : pynum) : Z :=
  match n with
  | PyInt z => z
  | PyFloat q => Z.quot (Qnum q) (Z.pos (Qden q))
  end.

(** [timestamp or time.time()], the clock reading being [now]. *)
Definition or_time (timestamp : option pynum) (now : Q) : pynum :=
  match timestamp with
  | Some t => if truthy t then t else PyFloat now
  | None => PyFloat now
  end.

(** ** The session object and the transport under it *)

(** What an [asyncio.StreamWriter] does when asked to close or to drain. *)
Record StreamWriter : Set := {
  close_raises : option exn;
  drain_raises : option exn
}.

(** The attribute [self.writer]: never assigned, [None], or a writer. *)
Inductive writer_attr : Set :=
| Unset
| IsNone
| Writer (w : StreamWriter).

(** The session and what it has done to the transport.  [self.reader] is
    never read and [self.loop] only goes to [asyncio.open_connection], whose
    outcome is an input here; both are left out. *)
Record world : Type := {
  _graphite_server_address : pystr * Z;
  writer : writer_attr;
  protocol : Protocol;
  written : list bytes;   (* the messages handed to [writer.write], oldest first *)
  closes : nat            (* the calls of [writer.close] *)
}.

Definition set_writer (a : writer_attr) (w : world) : world :=
  {| _graphite_server_address := _graphite_server_address w;
     writer := a;
     protocol := protocol w;
     written := written w;
     closes := closes w |}.

Definition add_write (message : bytes) (w : world) : world :=
  {| _graphite_server_address := _graphite_server_address w;
     writer := writer w;
     protocol := protocol w;
     written := written w ++ [message];
     closes := closes w |}.

Definition add_close (w : world) : world :=
  {| _graphite_server_address := _graphite_server_address w;
     writer := writer w;
     protocol := protocol w;
     written := written w;
     closes := S (closes w) |}.

(** A coroutine: what awaiting it does to the world, and what it returns or
    raises.  Building the coroutine object does nothing. *)
Definition coroutine (A : Type) : Type := world -> result A * world.

Definition ret {A} (a : A) : coroutine A := fun w => (Ok a, w).

Definition throw {A} (e : exn) : coroutine A := fun w => (Raise e, w).

Definition bind {A B} (c : coroutine A) (k : A -> coroutine B) : coroutine B :=
  fun w =>
    match c w with
    | (Ok a, w') => k a w'
    | (Raise e, w') => (Raise e, w')
    end.

Definition lift {A} (r : result A) : coroutine A := fun w => (r, w).

Definition try_except {A} (c : coroutine A) (handler : exn -> coroutine A) : coroutine A :=
  fun w =>
    match c w with
    | (Ok a, w') => (Ok a, w')
    | (Raise e, w') => handler e w'
    end.

Definition try_finally {A} (c : coroutine A) (final : coroutine unit) : coroutine A :=
  fun w =>
    match c w with
    | (r, w') =>
        match final w' with
        | (Ok _, w'') => (r, w'')
        | (Raise e, w'') => (Raise e, w'')
        end
    end.

Declare Scope coroutine_scope.
Delimit Scope coroutine_scope with coroutine.
Notation "x <- c ;; k" := (bind c (fun x => k))
  (at level 61, c at next level, right associativity) : coroutine_scope.
Notation "c ;; k" := (bind c (fun _ => k))
  (at level 61, right associativity) : coroutine_scope.

(** [await c] runs the coroutine. *)
Definition await {A} (c : coroutine A) : coroutine A := c.

(** A call of an [async def] function as an expression statement, with no
    [await]: the coroutine object is built and dropped, its body never runs. *)
Definition not_awaited {A} (c : coroutine A) : coroutine unit := ret tt.

(** [self.writer.write(message)]. *)
Definition writer_write (message : bytes) : coroutine unit := fun w =>
  match writer w with
  | Unset => (Raise AttributeError, w)
  | IsNone => (Raise AttributeError, w)
  | Writer _ => (Ok tt, add_write message w)
  end.

(** [self.writer.drain()], awaited. *)
Definition writer_drain : coroutine unit := fun w =>
  match writer w with
  | Unset => (Raise AttributeError, w)
  | IsNone => (Raise AttributeError, w)
  | Writer sw =>
      match drain_raises sw with
      | Some e => (Raise e, w)
      | None => (Ok tt, w)
      end
  end.

(** [self.writer.close()]. *)
Definition writer_close : coroutine unit := fun w =>
  match writer w with
  | Unset => (Raise AttributeError, w)
  | IsNone => (Raise AttributeError, w)
  | Writer sw =>
      match close_raises sw with
      | Some e => (Raise e, add_close w)
      | None => (Ok tt, add_close w)
      end
  end.

(** A dataset entry: [(name, value)] or [(name, value, timestamp)]. *)
Inductive datum (N : Type) : Type :=
| Datum2 (name : N) (value : Z)
| Datum3 (name : N) (value : Z) (data_timestamp : Z).
Arguments Datum2 {N} name value.
Arguments Datum3 {N} name value data_timestamp.

(** Modelled from the spec: [GraphiteEncoder.encode] of
    [aiographite/graphite_escaping.py], a module the sources do not include.
    The spec (4.1) has every character outside letters, digits and a small
    punctuation allow-list escaped and the others kept, and (8) gives
    [sanitize(["a.b","c"]) == "a_2e_b.c"]: the escape of a character is its
    code in lower-case hexadecimal between two underscores.  The allow-list,
    which the spec does not enumerate, is the argument [punctuation]. *)
Module GraphiteEncoder.

Definition is_letter_or_digit (c : Z) : bool :=
  ((48 <=? c) && (c <=? 57)) || ((65 <=? c) && (c <=? 90)) || ((97 <=? c) && (c <=? 122)).

Definition escape (c : Z) : pystr :=
  lit "_" ++ lit (HexadecimalString.NilZero.string_of_uint (N.to_hex_uint (Z.to_N c))) ++ lit "_".

Definition encode_char (punctuation : pystr) (c : Z) : pystr :=
  if is_letter_or_digit c || existsb (Z.eqb c) punctuation then [c] else escape c.

Definition encode (punctuation : pystr) (section_name : pystr) : pystr :=
  flat_map (encode_char punctuation) section_name.

End GraphiteEncoder.

Module AIOGraphite.
Section AIOGraphite.

(** [GraphiteEncoder.encode], from [aiographite.graphite_escaping]. *)
Variable GraphiteEncoder_encode : pystr -> pystr.

Local Open Scope coroutine_scope.

Definition _to_graphite_valid_metric_name (metric_dir_list : list pystr) : pystr :=
  join (lit ".") (map GraphiteEncoder_encode metric_dir_list).

(** The loop of [_generate_message_for_data_list].  The list is bound as
    [listofData]; the statement in the body names [listOfData], which no
    scope binds. *)
Fixpoint for_data_in (dataset : list (datum pystr)) (timestamp : Z) : result unit :=
  match dataset with
  | [] => Ok tt
  | data :: rest =>
      let '(metric, value, timestamp) :=
        match data with
        | Datum2 metric value => (metric, value, timestamp)
        | Datum3 metric value data_timestamp => (metric, value, data_timestamp)
        end in
      if name_is_bound "listOfData"
      then for_data_in rest timestamp
      else Raise NameError
  end.

Definition _generate_message_for_data_list {U : Type}
    (dataset : list (datum pystr)) (timestamp : Z)
    (formate_function : pystr -> Z -> Z -> U)
    (generate_message_function : list U -> result bytes) : result bytes :=
  let listofData : list U := [] in
  (_ <- for_data_in dataset timestamp ;;
   let message := generate_message_function listofData in
   message)%result.

Definition _send_message (message : bytes) : coroutine unit :=
  writer_write message ;;
  await writer_drain.

Definition _connect_to_graphite (open_connection : result StreamWriter) : coroutine unit :=
  fun w =>
    match open_connection with
    | Ok sw => (Ok tt, set_writer (Writer sw) w)
    | Raise socket_gaierror => (Raise AioGraphiteSendException, w)
    | Raise e => (Raise e, w)
    end.

Definition __init__ (graphite_server : pystr) (graphite_port : Z)
    (protocol : Protocol) (open_connection : result StreamWriter) : world :=
  let self := {| _graphite_server_address := (graphite_server, graphite_port);
                 writer := Unset;
                 protocol := protocol;
                 written := [];
                 closes := 0 |} in
  snd (not_awaited (_connect_to_graphite open_connection) self).

Definition send_single_valid_metric (now : Q) (metric : pystr) (value : Z)
    (timestamp : option pynum) : coroutine unit :=
  fun self =>
    let timestamp := int_ (or_time timestamp now) in
    let P := protocol self in
    let listOfMetricTuples := [data_formate_function P metric value timestamp] in
    (message <- lift (generate_message_function P listOfMetricTuples) ;;
     await (_send_message message)) self.

Definition send_valid_metric_list (now : Q) (dataset : list (datum pystr))
    (timestamp : option pynum) : coroutine unit :=
  fun self =>
    let timestamp := int_ (or_time timestamp now) in
    let P := protocol self in
    (message <- lift (_generate_message_for_data_list dataset timestamp
                        (data_formate_function P) (generate_message_function P)) ;;
     await (_send_message message)) self.

Definition send_single_metric (now : Q) (metric_dir_list : list pystr) (value : Z)
    (timestamp : option pynum) : coroutine unit :=
  let valid_metric_name := _to_graphite_valid_metric_name metric_dir_list in
  not_awaited (send_single_valid_metric now valid_metric_name value timestamp).

(** [[(name(m), value) for m, value in dataset]]: an entry of three does
    not unpack into two. *)
Fixpoint unpack_pairs (dataset : list (datum (list pystr))) : result (list (datum pystr)) :=
  match dataset with
  | [] => Ok []
  | Datum2 metric_dir_list value :: rest =>
      (tail <- unpack_pairs rest ;;
       Ok (Datum2 (_to_graphite_valid_metric_name metric_dir_list) value :: tail))%result
  | Datum3 _ _ _ :: _ => Raise ValueError
  end.

(** [[(name(m), value, timestamp) for m, value, timestamp in dataset]]. *)
Fixpoint unpack_triples (dataset : list (datum (list pystr))) : result (list (datum pystr)) :=
  match dataset with
  | [] => Ok []
  | Datum3 metric_dir_list value timestamp :: rest =>
      (tail <- unpack_triples rest ;;
       Ok (Datum3 (_to_graphite_valid_metric_name metric_dir_list) value timestamp :: tail))%result
  | Datum2 _ _ :: _ => Raise ValueError
  end.

Definition send_metric_list (now : Q) (dataset : list (datum (list pystr)))
    (timestamp : option pynum) : coroutine unit :=
  match dataset with
  | [] => ret tt
  | first :: _ =>
      valid_dataset <- lift (match first with
                             | Datum2 _ _ => unpack_pairs dataset
                             | Datum3 _ _ _ => unpack_triples dataset
                             end) ;;
      not_awaited (send_valid_metric_list now valid_dataset timestamp)
  end.

(** [dataset.items()] of a dict, in insertion order. *)
Definition items (dataset : list (pystr * Z)) : list (datum pystr) :=
  map (fun kv => Datum2 (fst kv) (snd kv)) dataset.

Definition send_valid_metric_dict (now : Q) (dataset : list (pystr * Z))
    (timestamp : option pynum) : coroutine unit :=
  not_awaited (send_valid_metric_list now (items dataset) timestamp).

Definition disconnect : coroutine unit :=
  try_finally
    (try_except writer_close
       (fun e => match e with
                 | AttributeError => fun w => (Ok tt, set_writer IsNone w)
                 | _ => fun w => (Ok tt, set_writer IsNone w)
                 end))
    (fun w => (Ok tt, set_writer IsNone w)).

End AIOGraphite.
End AIOGraphite.

(** ** Sessions used as concrete inputs *)

Definition ok_writer : StreamWriter := {| close_raises := None; drain_raises := None |}.

(** A session as the constructor leaves it. *)
Definition new_session : world :=
  AIOGraphite.__init__ (lit "localhost") DEFAULT_GRAPHITE_PICKLE_PORT PickleProtocol_
    (Ok ok_writer).

(** The same session once [_connect_to_graphite] has been awaited. *)
Definition connected_session : world :=
  snd (AIOGraphite._connect_to_graphite (Ok ok_writer) new_session).

(** And once [disconnect] has been awaited after that. *)
Definition disconnected_session : world :=
  snd (AIOGraphite.disconnect connected_session).


(** The session [w] with the Line protocol selected. *)
Definition plaintext_session (w : world) : world :=
  {| _graphite_server_address := _graphite_server_address w;
     writer := writer w;
     protocol := PlaintextProtocol_;
     written := written w;
     closes := closes w |}.



(** * Properties *)

(** ** Line encoding *)

Lemma join_empty_concat : forall parts : list pystr, join [] parts = concat parts.
Proof.
  induction parts as [|p rest IH]; [reflexivity|].
  destruct rest as [|q rest'].
  - simpl. now rewrite app_nil_r.
  - change (join [] (p :: q :: rest')) with (p ++ [] ++ join [] (q :: rest')).
    rewrite IH. reflexivity.
Qed.

Lemma encode_ascii_ok : forall s,
  Forall (fun c => 0 <= c < 128) s -> encode_ascii s = Ok s.
Proof.
  intros s H. unfold encode_ascii.
  replace (forallb _ s) with true; [reflexivity|].
  symmetry. apply forallb_forall. intros c Hc.
  rewrite Forall_forall in H. specialize (H c Hc).
  apply andb_true_iff. split; [apply Z.leb_le | apply Z.ltb_lt]; lia.
Qed.

Lemma ascii_str_app : forall s t, ascii_str s -> ascii_str t -> ascii_str (s ++ t).
Proof. intros s t Hs Ht. apply Forall_app. now split. Qed.

Lemma ascii_digits : forall d, ascii_str (lit (DecimalString.NilEmpty.string_of_uint d)).
Proof.
  induction d; cbn [DecimalString.NilEmpty.string_of_uint];
    try (apply Forall_nil);
    (apply Forall_cons; [cbn; lia | exact IHd]).
Qed.

Lemma ascii_str_int : forall n, ascii_str (str_int n).
Proof.
  intros n. unfold str_int, DecimalString.NilZero.string_of_int.
  assert (Hu : forall d, ascii_str (lit (DecimalString.NilZero.string_of_uint d))).
  { intros d. unfold DecimalString.NilZero.string_of_uint.
    destruct d; try apply ascii_digits. repeat constructor; cbn; lia. }
  destruct (Z.to_int n) as [d|d]; [apply Hu|].
  apply Forall_cons; [cbn; lia | apply Hu].
Qed.

Lemma ascii_format_line : forall sample,
  ascii_str (fst (fst sample)) -> ascii_str (format_line sample).
Proof.
  intros [[metric value] timestamp] Hm. cbn [fst] in Hm.
  unfold format_line, PlaintextProtocol.data_formate_function. cbn [join].
  repeat apply ascii_str_app; try assumption; try apply ascii_str_int;
    repeat constructor; cbn; lia.
Qed.

Lemma line_batch_returns : forall samples,
  Forall (fun sample => ascii_str (fst (fst sample))) samples ->
  PlaintextProtocol.generate_message_function (map format_line samples)
  = Ok (concat (map format_line samples)).
Proof.
  intros samples H. unfold PlaintextProtocol.generate_message_function.
  rewrite join_empty_concat. apply encode_ascii_ok.
  induction H as [|sample samples Hs _ IH]; [apply Forall_nil|].
  cbn [map concat]. apply Forall_app. split; [now apply ascii_format_line | exact IH].
Qed.

(** C2. The Line variant formats a sample as the identifier, the value and the
    timestamp in decimal, separated by single spaces and ended by a newline;
    the batch encoder concatenates the lines in input order and encodes the
    text as ASCII, which it does for every batch of samples whose identifiers
    are ASCII, the bytes being the characters of the lines; the two-sample
    example of the spec gives the bytes of "x 5 100\ny 6 200\n". *)
Theorem C2_line_encoding :
  (forall metric value timestamp,
      PlaintextProtocol.data_formate_function metric value timestamp
      = metric ++ lit " " ++ str_int value ++ lit " " ++ str_int timestamp ++ [10])
  /\ (forall lines,
      PlaintextProtocol.generate_message_function lines = encode_ascii (concat lines))
  /\ (forall samples,
      Forall (fun sample => ascii_str (fst (fst sample))) samples ->
      PlaintextProtocol.generate_message_function (map format_line samples)
      = Ok (concat (map format_line samples)))
  /\ PlaintextProtocol.generate_message_function
       [PlaintextProtocol.data_formate_function (lit "x") 5 100;
        PlaintextProtocol.data_formate_function (lit "y") 6 200]
     = Ok (lit "x 5 100" ++ [10] ++ lit "y 6 200" ++ [10]).
Proof.
  split; [|split; [|split]].
  - intros metric value timestamp.
    unfold PlaintextProtocol.data_formate_function. cbn [join].
    repeat rewrite <- app_assoc. reflexivity.
  - intros lines. unfold PlaintextProtocol.generate_message_function.
    now rewrite join_empty_concat.
  - exact line_batch_returns.
  - vm_compute. reflexivity.
Qed.

Lemma C2_line_encoding_witness :
  PlaintextProtocol.generate_message_function
    (map format_line [(lit "x", 5, 100); (lit "y", 6, 200)])
  = Ok (concat (map format_line [(lit "x", 5, 100); (lit "y", 6, 200)])).
Proof.
  apply (proj1 (proj2 (proj2 C2_line_encoding))).
  repeat constructor; cbn; lia.
Defined.

(** ** The frame *)

Lemma le_bytes_length : forall n u, length (Pickle.le_bytes n u) = n.
Proof. induction n; intros u; simpl; [reflexivity | now rewrite IHn]. Qed.

Lemma le_value_le_bytes : forall n u,
  Pickle.le_value (Pickle.le_bytes n u) = u mod 256 ^ Z.of_nat n.
Proof.
  induction n as [|n IH]; intros u.
  - simpl. now rewrite Z.mod_1_r.
  - cbn [Pickle.le_bytes Pickle.le_value fold_right]. fold (Pickle.le_value (Pickle.le_bytes n (u / 256))).
    rewrite IH, Nat2Z.inj_succ, Z.pow_succ_r by lia.
    rewrite Z.rem_mul_r by (try apply Z.pow_nonzero; lia). reflexivity.
Qed.

Lemma from_bytes_big_rev : forall bs, from_bytes_big (rev bs) = Pickle.le_value bs.
Proof.
  unfold from_bytes_big. induction bs as [|b bs IH]; [reflexivity|].
  change (Pickle.le_value (b :: bs)) with (b + 256 * Pickle.le_value bs).
  cbn [rev]. rewrite fold_left_app, IH. cbn [fold_left]. lia.
Qed.

Lemma from_bytes_big_le4 : forall n,
  0 <= n <= 4294967295 -> from_bytes_big (rev (Pickle.le_bytes 4 n)) = n.
Proof.
  intros n Hn. rewrite from_bytes_big_rev, le_value_le_bytes.
  apply Z.mod_small. change (256 ^ Z.of_nat 4) with 4294967296. lia.
Qed.

Lemma struct_pack_L_ok : forall n,
  0 <= n <= 4294967295 ->
  exists header, struct_pack_L n = Ok header /\ length header = 4%nat
                 /\ from_bytes_big header = n.
Proof.
  intros n Hn. exists (rev (Pickle.le_bytes 4 n)). split; [|split].
  - unfold struct_pack_L.
    replace ((0 <=? n) && (n <=? 4294967295)) with true; [reflexivity|].
    symmetry. apply andb_true_iff. split; apply Z.leb_le; lia.
  - now rewrite length_rev, le_bytes_length.
  - now apply from_bytes_big_le4.
Qed.

(** A payload of fewer than 2^32 bytes is framed. *)
Lemma frame_of_payload : forall units payload,
  Pickle.dumps units = Ok payload ->
  Pickle.len payload <= 4294967295 ->
  exists header,
    PickleProtocol.generate_message_function units = Ok (header ++ payload)
    /\ length header = 4%nat
    /\ Pickle.len (header ++ payload) = 4 + Pickle.len payload
    /\ from_bytes_big (firstn 4 (header ++ payload)) = Pickle.len (header ++ payload) - 4.
Proof.
  intros units payload Hd Hlen.
  destruct (struct_pack_L_ok (Pickle.len payload)) as (header & Hp & Hl & Hv).
  { unfold Pickle.len in *. lia. }
  exists header. split; [|split; [|split]].
  - unfold PickleProtocol.generate_message_function. rewrite Hd. simpl.
    rewrite Hp. reflexivity.
  - exact Hl.
  - unfold Pickle.len. rewrite length_app, Hl. lia.
  - rewrite <- Hl at 1. rewrite firstn_app, firstn_all, Nat.sub_diag. simpl.
    rewrite app_nil_r, Hv. unfold Pickle.len. rewrite length_app, Hl. lia.
Qed.

Lemma struct_pack_L_length : forall n header,
  struct_pack_L n = Ok header -> length header = 4%nat.
Proof.
  intros n header H. unfold struct_pack_L in H.
  destruct ((0 <=? n) && (n <=? 4294967295)); [|discriminate H].
  assert (E : header = rev (Pickle.le_bytes 4 n)) by congruence.
  rewrite E, length_rev. apply le_bytes_length.
Qed.

(** C3. Whenever the pickled payload is shorter than 2^32 bytes, the
    Framed-Binary batch encoder returns a message; and every message it
    returns is a 4-byte header followed by the pickled payload, is
    4 + payload length bytes long, and its first four bytes read as a
    big-endian unsigned integer give the message length minus 4. *)
Theorem C3_frame_header : forall units,
  (forall payload,
      Pickle.dumps units = Ok payload ->
      Pickle.len payload <= 4294967295 ->
      exists message, PickleProtocol.generate_message_function units = Ok message)
  /\ (forall message,
      PickleProtocol.generate_message_function units = Ok message ->
      exists payload,
        Pickle.dumps units = Ok payload
        /\ message = firstn 4 message ++ payload
        /\ length (firstn 4 message) = 4%nat
        /\ Pickle.len message = 4 + Pickle.len payload
        /\ from_bytes_big (firstn 4 message) = Pickle.len message - 4).
Proof.
  intros units. split.
  - intros payload Hd Hlen.
    destruct (frame_of_payload units payload Hd Hlen) as (header & H & _).
    now exists (header ++ payload).
  - intros message H.
    assert (H' := H).
    unfold PickleProtocol.generate_message_function, rbind in H'.
    destruct (Pickle.dumps units) as [payload|e] eqn:Hd; [|discriminate H'].
    destruct (struct_pack_L (Pickle.len payload)) as [header|e] eqn:Hh; [|discriminate H'].
    assert (Hrange : Pickle.len payload <= 4294967295).
    { unfold struct_pack_L in Hh.
      destruct (Z.leb_spec (Pickle.len payload) 4294967295); [assumption|].
      rewrite andb_false_r in Hh. discriminate Hh. }
    destruct (frame_of_payload units payload Hd Hrange)
      as (header' & Hgen & Hl & Hlen & Hval).
    rewrite H in Hgen.
    assert (E : message = header' ++ payload) by congruence.
    exists payload. rewrite E. repeat split; try assumption; try reflexivity.
    + rewrite <- Hl at 1. rewrite firstn_app, firstn_all, Nat.sub_diag.
      cbn [firstn]. now rewrite app_nil_r.
    + rewrite <- Hl at 1. rewrite firstn_app, firstn_all, Nat.sub_diag.
      cbn [firstn]. now rewrite app_nil_r.
Qed.

Lemma C3_frame_header_witness :
  exists message,
    PickleProtocol.generate_message_function [(lit "x", (100, 5))] = Ok message
    /\ from_bytes_big (firstn 4 message) = Pickle.len message - 4.
Proof.
  destruct (C3_frame_header [(lit "x", (100, 5))]) as [Hreturns Hframe].
  destruct (Hreturns
              [128; 2; 93; 113; 0; 88; 1; 0; 0; 0; 120; 113; 1; 75; 100;
               75; 5; 134; 113; 2; 134; 113; 3; 97; 46])
    as (message & Hm).
  - vm_compute. reflexivity.
  - vm_compute. discriminate.
  - exists message. split; [exact Hm|].
    destruct (Hframe message Hm) as (payload & _ & _ & _ & _ & Hv). exact Hv.
Defined.

(** ** The unpickler undoes the pickler *)

Module PickleFacts.

Import Pickle Unpickler.

Lemma take_app : forall front back, take (length front) (front ++ back) = Some (front, back).
Proof.
  induction front as [|b front IH]; intros back; [reflexivity|].
  cbn [length app take]. now rewrite IH.
Qed.

Lemma read_le_le_bytes : forall n u rest,
  read_le n (le_bytes n u ++ rest) = Some (u mod 256 ^ Z.of_nat n, rest).
Proof.
  intros n u rest. unfold read_le.
  rewrite <- (le_bytes_length n u) at 1. rewrite take_app.
  now rewrite <- le_value_le_bytes.
Qed.

Ltac decide_tests :=
  repeat match goal with
    | |- context [?a <=? ?b] =>
        destruct (Z.leb_spec a b); try (exfalso; Z.div_mod_to_equations; lia)
    | |- context [?a <? ?b] =>
        destruct (Z.ltb_spec a b); try (exfalso; Z.div_mod_to_equations; lia)
    end.

Lemma utf8_decode_char : forall c rest,
  valid_codepoint c ->
  utf8_decode (utf8_char c ++ rest) = option_map (cons c) (utf8_decode rest).
Proof.
  intros c rest [Hlo Hhi]. unfold utf8_char.
  destruct (Z.ltb_spec c 128); [|destruct (Z.ltb_spec c 2048); [|destruct (Z.ltb_spec c 65536)]];
    cbn [app utf8_decode]; unfold is_continuation.
  - decide_tests. reflexivity.
  - decide_tests. cbn [andb]. f_equal. f_equal. Z.div_mod_to_equations; lia.
  - decide_tests. cbn [andb]. f_equal. f_equal. Z.div_mod_to_equations; lia.
  - decide_tests. cbn [andb]. f_equal. f_equal. Z.div_mod_to_equations; lia.
Qed.

Lemma utf8_decode_encode : forall s, valid_str s -> utf8_decode (utf8_encode s) = Some s.
Proof.
  induction 1 as [|c s Hc Hs IH]; [reflexivity|].
  unfold utf8_encode in *. cbn [flat_map].
  rewrite (utf8_decode_char c _ Hc), IH. reflexivity.
Qed.

Lemma pow256_pos : forall n : nat, 0 < 256 ^ Z.of_nat n.
Proof. intros n. apply Z.pow_pos_nonneg; lia. Qed.

Lemma pow256_succ : forall n : nat, 256 ^ Z.of_nat (S n) = 256 * 256 ^ Z.of_nat n.
Proof. intros n. rewrite Nat2Z.inj_succ, Z.pow_succ_r by lia. reflexivity. Qed.

Lemma nth_le_bytes : forall n i u,
  (i < n)%nat -> nth i (le_bytes n u) 0 = (u / 256 ^ Z.of_nat i) mod 256.
Proof.
  induction n as [|n IH]; intros i u Hi; [lia|].
  destruct i as [|i]; cbn [le_bytes nth].
  - now rewrite Z.div_1_r.
  - rewrite IH by lia. rewrite pow256_succ, Z.div_div by (try apply pow256_pos; lia).
    reflexivity.
Qed.

Lemma firstn_le_bytes : forall k n u,
  (k <= n)%nat -> firstn k (le_bytes n u) = le_bytes k u.
Proof.
  induction k as [|k IH]; intros n u Hk; [reflexivity|].
  destruct n as [|n]; [lia|]. cbn [le_bytes firstn]. rewrite IH by lia. reflexivity.
Qed.

(** The top octet splits an [S n]-octet value. *)
Lemma split_top : forall (n : nat) u,
  u mod 256 ^ Z.of_nat (S n)
  = u mod 256 ^ Z.of_nat n + 256 ^ Z.of_nat n * ((u / 256 ^ Z.of_nat n) mod 256).
Proof.
  intros n u. rewrite pow256_succ, Z.mul_comm.
  apply Z.rem_mul_r; [pose proof (pow256_pos n)|]; lia.
Qed.

Lemma mod_of_negative : forall x M, - M <= x < 0 -> x mod M = x + M.
Proof.
  intros x M H. symmetry. apply Z.mod_unique with (q := -1); lia.
Qed.

Lemma decode_long_le_bytes : forall (n : nat) u x,
  u mod 256 ^ Z.of_nat (S n) = x mod 256 ^ Z.of_nat (S n) ->
  - (128 * 256 ^ Z.of_nat n) <= x < 128 * 256 ^ Z.of_nat n ->
  decode_long (le_bytes (S n) u) = x.
Proof.
  intros n u x Hmod Hx. unfold decode_long.
  rewrite le_bytes_length, le_value_le_bytes.
  replace (S n - 1)%nat with n by lia.
  rewrite nth_le_bytes by lia.
  pose proof (split_top n u) as Hs.
  pose proof (pow256_pos n) as HP.
  pose proof (pow256_succ n) as HS.
  pose proof (Z.mod_pos_bound u (256 ^ Z.of_nat n) HP) as Hlow.
  pose proof (Z.mod_pos_bound (u / 256 ^ Z.of_nat n) 256 ltac:(lia)) as Htop.
  set (P := 256 ^ Z.of_nat n) in *.
  set (top := (u / P) mod 256) in *.
  set (low := u mod P) in *.
  rewrite Hmod in Hs. rewrite Hmod. rewrite HS in *.
  destruct (Z.leb_spec 128 top) as [Ht | Ht].
  - (* negative *)
    assert (x < 0).
    { destruct (Z_lt_le_dec x 0) as [|Hge]; [assumption|].
      rewrite Z.mod_small in Hs by lia.
      assert (P * 128 <= P * top) by (apply Z.mul_le_mono_nonneg_l; lia). lia. }
    rewrite mod_of_negative by lia. lia.
  - assert (0 <= x).
    { destruct (Z_lt_le_dec x 0) as [Hlt|]; [|assumption].
      rewrite mod_of_negative in Hs by lia.
      assert (P * top <= P * 127) by (apply Z.mul_le_mono_nonneg_l; lia). lia. }
    apply Z.mod_small. lia.
Qed.

Lemma pow256_as_pow2 : forall k : nat, 256 ^ Z.of_nat k = 2 ^ (8 * Z.of_nat k).
Proof. intros k. rewrite Z.pow_mul_r by lia. reflexivity. Qed.

Lemma encode_long_range : forall x,
  x <> 0 ->
  exists k : nat,
    Z.to_nat (bit_length x / 8 + 1) = S k
    /\ - (128 * 256 ^ Z.of_nat k) <= x < 128 * 256 ^ Z.of_nat k.
Proof.
  intros x Hx. unfold bit_length.
  destruct (Z.eqb_spec x 0) as [|_]; [contradiction|].
  set (bl := Z.log2 (Z.abs x) + 1).
  assert (Hbl : 0 < bl) by (pose proof (Z.log2_nonneg (Z.abs x)); lia).
  assert (Habs : Z.abs x < 2 ^ bl).
  { pose proof (Z.log2_spec (Z.abs x) ltac:(lia)) as [_ H]. exact H. }
  exists (Z.to_nat (bl / 8)).
  assert (Hq : 0 <= bl / 8) by (apply Z.div_pos; lia).
  split; [rewrite Z2Nat.inj_add by lia; simpl; lia|].
  rewrite pow256_as_pow2, Z2Nat.id by lia.
  assert (Hle : 2 ^ bl <= 2 ^ (7 + 8 * (bl / 8))).
  { apply Z.pow_le_mono_r; [lia|]. pose proof (Z.mod_pos_bound bl 8 ltac:(lia)).
    pose proof (Z.div_mod bl 8 ltac:(lia)). lia. }
  rewrite Z.pow_add_r in Hle by lia. change (2 ^ 7) with 128 in Hle. lia.
Qed.

Lemma mod_of_mod_succ : forall (n : nat) x,
  (x mod 256 ^ Z.of_nat (S n)) mod 256 ^ Z.of_nat n = x mod 256 ^ Z.of_nat n.
Proof.
  intros n x. rewrite split_top, Z.mul_comm, Z_mod_plus_full. apply Z.mod_mod.
  pose proof (pow256_pos n). lia.
Qed.

Lemma decode_encode_long : forall x, decode_long (encode_long x) = x.
Proof.
  intros x. unfold encode_long.
  destruct (Z.eqb_spec x 0) as [->|Hx]; [reflexivity|].
  destruct (encode_long_range x Hx) as (k & -> & Hrange).
  set (u := x mod 256 ^ Z.of_nat (S k)).
  assert (Hu : u mod 256 ^ Z.of_nat (S k) = x mod 256 ^ Z.of_nat (S k)).
  { unfold u. apply Z.mod_mod. pose proof (pow256_pos (S k)). lia. }
  match goal with |- context [if ?c then _ else _] => destruct c eqn:Hc end;
    [|now apply decode_long_le_bytes].
  apply andb_true_iff in Hc. destruct Hc as [Hc Hnext].
  apply andb_true_iff in Hc. destruct Hc as [Hc Htop].
  apply andb_true_iff in Hc. destruct Hc as [Hneg Hk].
  apply Z.ltb_lt in Hneg, Hk. apply Z.eqb_eq in Htop. apply Z.leb_le in Hnext.
  destruct k as [|j]; [simpl in Hk; lia|].
  replace (S (S j) - 1)%nat with (S j) in * by lia.
  replace (S (S j) - 2)%nat with j in * by lia.
  rewrite nth_le_bytes in Htop, Hnext by lia.
  rewrite firstn_le_bytes by lia.
  pose proof (pow256_pos j) as HP.
  pose proof (pow256_succ j) as HS1.
  pose proof (pow256_succ (S j)) as HS2.
  pose proof (split_top (S j) u) as Hs1. rewrite Hu, Htop in Hs1.
  pose proof (split_top j u) as Hs2.
  pose proof (Z.mod_pos_bound u (256 ^ Z.of_nat j) HP) as Hlow.
  apply decode_long_le_bytes.
  - unfold u. apply mod_of_mod_succ.
  - rewrite mod_of_negative in Hs1 by lia.
    set (P := 256 ^ Z.of_nat j) in *.
    assert (P * 128 <= P * ((u / P) mod 256)) by (apply Z.mul_le_mono_nonneg_l; lia).
    lia.
Qed.


Lemma steps_trans : forall bs stack memo bs1 stack1 memo1 bs2 stack2 memo2,
  steps bs stack memo bs1 stack1 memo1 ->
  steps bs1 stack1 memo1 bs2 stack2 memo2 ->
  steps bs stack memo bs2 stack2 memo2.
Proof.
  induction 1 as [|? ? ? ? ? ? ? ? ? Hstep Hlen _ IH]; intros H2; [exact H2|].
  eapply steps_step; eauto.
Qed.

Lemma steps_one : forall bs stack memo bs1 stack1 memo1,
  step bs stack memo = Continue bs1 stack1 memo1 ->
  (length bs1 < length bs)%nat ->
  steps bs stack memo bs1 stack1 memo1.
Proof. intros. eapply steps_step; eauto. apply steps_refl. Qed.

Lemma run_steps : forall bs stack memo bs1 stack1 memo1,
  steps bs stack memo bs1 stack1 memo1 ->
  forall fuel, (length bs <= fuel)%nat ->
  exists fuel1, (length bs1 <= fuel1)%nat
                /\ run fuel bs stack memo = run fuel1 bs1 stack1 memo1.
Proof.
  induction 1 as [|? ? ? ? ? ? ? ? ? Hstep Hlen _ IH]; intros fuel Hfuel.
  - exists fuel. split; [assumption | reflexivity].
  - destruct fuel as [|fuel]; [lia|].
    destruct (IH fuel ltac:(lia)) as (fuel1 & Hf & Hrun).
    exists fuel1. split; [assumption|]. cbn [run]. rewrite Hstep. exact Hrun.
Qed.

(** *** What the machine does with each thing the pickler writes *)

Lemma and_then_ok : forall p q idx bs idx',
  (p ;; q)%pickler idx = Ok (bs, idx') ->
  exists b1 i1 b2, p idx = Ok (b1, i1) /\ q i1 = Ok (b2, idx') /\ bs = b1 ++ b2.
Proof.
  intros p q idx bs idx' H. unfold and_then in H.
  destruct (p idx) as [[b1 i1]|e] eqn:Hp; [|discriminate H].
  destruct (q i1) as [[b2 i2]|e] eqn:Hq; [|discriminate H].
  inversion H; subst. exists b1, i1, b2. repeat split; assumption.
Qed.

Lemma write_ok : forall out idx bs idx',
  write out idx = Ok (bs, idx') -> bs = out /\ idx' = idx.
Proof. intros out idx bs idx' H. inversion H. now split. Qed.

(** The opcodes, one by one. *)

Lemma step_PROTO : forall rest stack memo,
  step (PROTO :: 2 :: rest) stack memo = Continue rest stack memo.
Proof. reflexivity. Qed.

Lemma step_STOP : forall rest value stack memo,
  step (STOP :: rest) (Obj value :: stack) memo = Stop value.
Proof. reflexivity. Qed.

Lemma step_MARK : forall rest stack memo,
  step (MARK :: rest) stack memo = Continue rest (Mark :: stack) memo.
Proof. reflexivity. Qed.

Lemma step_EMPTY_LIST : forall rest stack memo,
  step (EMPTY_LIST :: rest) stack memo = Continue rest (Obj (PList []) :: stack) memo.
Proof. reflexivity. Qed.

Lemma step_BINPUT : forall rest stack memo,
  step (BINPUT :: rest) stack memo
  = match read_le 1 rest with
    | Some (i, rest') => put i rest' stack memo
    | None => Error
    end.
Proof. reflexivity. Qed.

Lemma step_LONG_BINPUT : forall rest stack memo,
  step (LONG_BINPUT :: rest) stack memo
  = match read_le 4 rest with
    | Some (i, rest') => put i rest' stack memo
    | None => Error
    end.
Proof. reflexivity. Qed.

Lemma step_BINUNICODE : forall rest stack memo,
  step (BINUNICODE :: rest) stack memo
  = match read_le 4 rest with
    | Some (n, rest') =>
        match take (Z.to_nat n) rest' with
        | Some (data, rest'') =>
            match utf8_decode data with
            | Some s => Continue rest'' (Obj (PStr s) :: stack) memo
            | None => Error
            end
        | None => Error
        end
    | None => Error
    end.
Proof. reflexivity. Qed.

Lemma step_BININT : forall rest stack memo,
  step (BININT :: rest) stack memo = push_le 4 (Some 32) rest stack memo.
Proof. reflexivity. Qed.

Lemma step_BININT1 : forall rest stack memo,
  step (BININT1 :: rest) stack memo = push_le 1 None rest stack memo.
Proof. reflexivity. Qed.

Lemma step_BININT2 : forall rest stack memo,
  step (BININT2 :: rest) stack memo = push_le 2 None rest stack memo.
Proof. reflexivity. Qed.

Lemma step_LONG1 : forall rest stack memo,
  step (LONG1 :: rest) stack memo
  = match read_le 1 rest with
    | Some (n, rest') => push_long n rest' stack memo
    | None => Error
    end.
Proof. reflexivity. Qed.

Lemma step_LONG4 : forall rest stack memo,
  step (LONG4 :: rest) stack memo
  = match read_le 4 rest with
    | Some (u, rest') =>
        push_long (if 2147483648 <=? u then u - 4294967296 else u) rest' stack memo
    | None => Error
    end.
Proof. reflexivity. Qed.

Lemma step_TUPLE2 : forall rest a b stack memo,
  step (TUPLE2 :: rest) (Obj b :: Obj a :: stack) memo
  = Continue rest (Obj (PTuple2 a b) :: stack) memo.
Proof. reflexivity. Qed.

Lemma step_APPEND : forall rest value items stack memo,
  step (APPEND :: rest) (Obj value :: Obj (PList items) :: stack) memo
  = Continue rest (Obj (PList (items ++ [value])) :: stack) memo.
Proof. reflexivity. Qed.

Lemma step_APPENDS : forall rest stack memo,
  step (APPENDS :: rest) stack memo
  = match pop_mark stack with
    | Some (values, Obj (PList items) :: under) =>
        Continue rest (Obj (PList (items ++ values)) :: under) memo
    | _ => Error
    end.
Proof. reflexivity. Qed.

Lemma read_le_1 : forall b rest, read_le 1 (b :: rest) = Some (b, rest).
Proof. intros b rest. unfold read_le. cbn. f_equal. f_equal. lia. Qed.

(** [Ok (a, b) = Ok (c, d)] read as two equations, nothing unfolded. *)
Ltac ok_pair H :=
  unfold write in H;
  match type of H with
  | Ok (?a, ?b) = Ok (?c, ?d) =>
      let E1 := fresh "E" in
      let E2 := fresh "E" in
      assert (E1 : c = a) by congruence;
      assert (E2 : d = b) by congruence;
      clear H; try subst c; try subst d
  end.

Lemma steps_memo_put : forall idx bs idx',
  memo_put idx = Ok (bs, idx') ->
  forall rest o stack memo,
  exists memo', steps (bs ++ rest) (Obj o :: stack) memo rest (Obj o :: stack) memo'.
Proof.
  intros idx bs idx' H rest o stack memo. unfold memo_put in H.
  destruct (Z.ltb_spec idx 256) as [Hlt|Hge].
  - ok_pair H. eexists. apply steps_one.
    + cbn [app]. rewrite step_BINPUT, read_le_1. reflexivity.
    + cbn [app length]. lia.
  - destruct (Z.leb_spec idx 4294967295); [|discriminate H].
    ok_pair H. eexists. apply steps_one.
    + rewrite <- app_comm_cons, step_LONG_BINPUT, read_le_le_bytes. reflexivity.
    + rewrite <- app_comm_cons. cbn [length]. rewrite length_app. lia.
Qed.

Lemma steps_save_long : forall x idx bs idx',
  save_long x idx = Ok (bs, idx') ->
  idx' = idx
  /\ forall rest stack memo,
       steps (bs ++ rest) stack memo rest (Obj (PInt x) :: stack) memo.
Proof.
  intros x idx bs idx' H. unfold save_long in H.
  destruct ((-2147483648 <=? x) && (x <=? 2147483647)) eqn:Hfit.
  - apply andb_true_iff in Hfit. destruct Hfit as [Hlo Hhi].
    apply Z.leb_le in Hlo, Hhi.
    set (u := x mod 4294967296) in *.
    assert (Hu : 0 <= u < 4294967296) by (apply Z.mod_pos_bound; lia).
    assert (Hux : x = if 2147483648 <=? u then u - 4294967296 else u).
    { unfold u. destruct (Z_lt_le_dec x 0).
      - rewrite mod_of_negative by lia. destruct (Z.leb_spec 2147483648 (x + 4294967296)); lia.
      - rewrite Z.mod_small by lia. destruct (Z.leb_spec 2147483648 x); lia. }
    rewrite !nth_le_bytes in H by lia.
    change (256 ^ Z.of_nat 3) with 16777216 in H.
    change (256 ^ Z.of_nat 2) with 65536 in H.
    change (256 ^ Z.of_nat 1) with 256 in H.
    destruct (negb ((u / 16777216) mod 256 =? 0) || negb ((u / 65536) mod 256 =? 0)) eqn:Hhigh.
    + ok_pair H. split; [reflexivity|]. intros rest stack memo. apply steps_one.
      * rewrite <- app_comm_cons, step_BININT. unfold push_le.
        rewrite read_le_le_bytes. change (256 ^ Z.of_nat 4) with 4294967296.
        rewrite Z.mod_small by lia. change (2 ^ (32 - 1)) with 2147483648.
        change (2 ^ 32) with 4294967296. rewrite <- Hux. reflexivity.
      * rewrite <- app_comm_cons. cbn [length]. rewrite length_app. lia.
    + apply orb_false_iff in Hhigh. destruct Hhigh as [H3 H2].
      apply negb_false_iff, Z.eqb_eq in H3, H2.
      assert (Hsmall : u < 65536) by (Z.div_mod_to_equations; lia).
      assert (Hxu : x = u) by (destruct (Z.leb_spec 2147483648 u); lia).
      destruct (negb ((u / 256) mod 256 =? 0)) eqn:H1.
      * ok_pair H. split; [reflexivity|]. intros rest stack memo. apply steps_one.
        -- rewrite firstn_le_bytes by lia.
           rewrite <- app_comm_cons, step_BININT2. unfold push_le.
           rewrite read_le_le_bytes. change (256 ^ Z.of_nat 2) with 65536.
           rewrite Z.mod_small by lia. now rewrite Hxu.
        -- rewrite <- app_comm_cons. cbn [length]. rewrite length_app. lia.
      * apply negb_false_iff, Z.eqb_eq in H1.
        assert (Htiny : u < 256) by (Z.div_mod_to_equations; lia).
        ok_pair H. split; [reflexivity|]. intros rest stack memo. apply steps_one.
        -- rewrite firstn_le_bytes by lia.
           rewrite <- app_comm_cons, step_BININT1. unfold push_le.
           rewrite read_le_le_bytes. change (256 ^ Z.of_nat 1) with 256.
           rewrite Z.mod_small by lia. now rewrite Hxu.
        -- rewrite <- app_comm_cons. cbn [length]. rewrite length_app. lia.
  - set (data := encode_long x) in *.
    destruct (Z.ltb_spec (len data) 256) as [Hshort|Hlong].
    + ok_pair H. split; [reflexivity|]. intros rest stack memo. apply steps_one.
      * rewrite <- !app_comm_cons, step_LONG1, read_le_1. unfold push_long, len.
        destruct (Z.ltb_spec (Z.of_nat (length data)) 0); [lia|].
        rewrite Nat2Z.id, take_app. unfold data. now rewrite decode_encode_long.
      * rewrite <- !app_comm_cons. cbn [length]. rewrite length_app. lia.
    + destruct (Z.leb_spec (len data) 2147483647) as [Hfits|]; [|discriminate H].
      ok_pair H. split; [reflexivity|]. intros rest stack memo. apply steps_one.
      * rewrite <- app_comm_cons, <- app_assoc, step_LONG4, read_le_le_bytes.
        change (256 ^ Z.of_nat 4) with 4294967296.
        unfold len in *. rewrite Z.mod_small by lia.
        destruct (Z.leb_spec 2147483648 (Z.of_nat (length data))); [lia|].
        unfold push_long.
        destruct (Z.ltb_spec (Z.of_nat (length data)) 0); [lia|].
        rewrite Nat2Z.id, take_app. unfold data. now rewrite decode_encode_long.
      * rewrite <- app_comm_cons. cbn [length]. rewrite !length_app. lia.
Qed.


Lemma steps_save_unicode : forall s idx bs idx',
  save_unicode s idx = Ok (bs, idx') ->
  valid_str s ->
  forall rest stack memo,
  exists memo', steps (bs ++ rest) stack memo rest (Obj (PStr s) :: stack) memo'.
Proof.
  intros s idx bs idx' H Hs rest stack memo. unfold save_unicode in H.
  destruct (Z.leb_spec (len (utf8_encode s)) 4294967295) as [Hlen|]; [|discriminate H].
  apply and_then_ok in H. destruct H as (b1 & i1 & b2 & Hw & Hput & ->).
  ok_pair Hw.
  destruct (steps_memo_put _ _ _ Hput rest (PStr s) stack memo) as (memo' & Hsteps).
  exists memo'. rewrite <- app_assoc.
  eapply steps_step; [| |exact Hsteps].
  - rewrite <- app_comm_cons, <- app_assoc, step_BINUNICODE, read_le_le_bytes.
    change (256 ^ Z.of_nat 4) with 4294967296.
    unfold len in *. rewrite Z.mod_small by lia.
    rewrite Nat2Z.id, take_app, (utf8_decode_encode s Hs). reflexivity.
  - rewrite <- app_comm_cons. cbn [length]. rewrite !length_app. lia.
Qed.

Lemma steps_write_TUPLE2 : forall rest a b stack memo,
  steps ([TUPLE2] ++ rest) (Obj b :: Obj a :: stack) memo
        rest (Obj (PTuple2 a b) :: stack) memo.
Proof.
  intros. apply steps_one; [apply step_TUPLE2 | cbn; lia].
Qed.

Lemma steps_save_unit : forall u idx bs idx',
  save_unit u idx = Ok (bs, idx') ->
  valid_unit u ->
  forall rest stack memo,
  exists memo', steps (bs ++ rest) stack memo rest (Obj (of_unit u) :: stack) memo'.
Proof.
  intros [metric [timestamp value]] idx bs idx' H Hu rest stack memo.
  unfold save_unit in H.
  apply and_then_ok in H. destruct H as (b1 & i1 & b2 & Hmetric & H & ->).
  apply and_then_ok in H. destruct H as (b3 & i3 & b4 & Hinner & H & ->).
  apply and_then_ok in H. destruct H as (b5 & i5 & b6 & Hw2 & Hput2 & ->).
  apply and_then_ok in Hinner. destruct Hinner as (b7 & i7 & b8 & Hts & Hinner & ->).
  apply and_then_ok in Hinner. destruct Hinner as (b9 & i9 & b10 & Hval & Hinner & ->).
  apply and_then_ok in Hinner. destruct Hinner as (b11 & i11 & b12 & Hw1 & Hput1 & ->).
  ok_pair Hw1. ok_pair Hw2.
  destruct (steps_save_unicode _ _ _ _ Hmetric Hu
              ((b7 ++ b9 ++ [TUPLE2] ++ b12) ++ [TUPLE2] ++ b6 ++ rest) stack memo)
    as (memo1 & S1).
  destruct (steps_save_long _ _ _ _ Hts) as [_ S2].
  destruct (steps_save_long _ _ _ _ Hval) as [_ S3].
  destruct (steps_memo_put _ _ _ Hput1 ([TUPLE2] ++ b6 ++ rest)
              (PTuple2 (PInt timestamp) (PInt value)) (Obj (PStr metric) :: stack) memo1)
    as (memo2 & S5).
  destruct (steps_memo_put _ _ _ Hput2 rest
              (PTuple2 (PStr metric) (PTuple2 (PInt timestamp) (PInt value))) stack memo2)
    as (memo3 & S7).
  exists memo3. cbn [of_unit].
  repeat rewrite <- app_assoc. repeat rewrite <- app_assoc in S1.
  eapply steps_trans; [exact S1|].
  eapply steps_trans; [apply S2|].
  eapply steps_trans; [apply S3|].
  eapply steps_trans; [apply steps_write_TUPLE2|].
  eapply steps_trans; [exact S5|].
  eapply steps_trans; [apply steps_write_TUPLE2|].
  exact S7.
Qed.

Lemma pop_mark_app : forall items under,
  pop_mark (map Obj items ++ Mark :: under) = Some (rev items, under).
Proof.
  induction items as [|o items IH]; intros under; [reflexivity|].
  cbn [map app pop_mark rev]. rewrite IH. reflexivity.
Qed.


Lemma batch_stack_snoc : forall pending o acc under,
  batch_stack (pending ++ [o]) acc under
  = Obj o :: map Obj (rev pending) ++ Mark :: Obj (PList acc) :: under.
Proof.
  intros pending o acc under. unfold batch_stack.
  destruct (pending ++ [o]) as [|x xs] eqn:E.
  - destruct pending; discriminate E.
  - rewrite <- E, rev_app_distr. reflexivity.
Qed.

Lemma steps_batch_list : forall items this_batch idx bs idx',
  batch_list items this_batch idx = Ok (bs, idx') ->
  Forall valid_unit items ->
  forall pending acc under rest memo,
    length pending = this_batch ->
    exists memo',
      steps (bs ++ rest) (batch_stack pending acc under) memo
            rest (Obj (PList (acc ++ pending ++ map of_unit items)) :: under) memo'.
Proof.
  induction items as [|item items IH];
    intros this_batch idx bs idx' H Hvalid pending acc under rest memo Hlen;
    subst this_batch.
  - cbn [batch_list] in H. cbn [map]. rewrite app_nil_r.
    destruct (Nat.eqb_spec (length pending) 0) as [Hz|Hnz].
    + ok_pair H. destruct pending; [|cbn in Hz; lia].
      exists memo. rewrite app_nil_r. apply steps_refl.
    + ok_pair H. exists memo. apply steps_one; [|cbn; lia].
      cbn [app]. rewrite step_APPENDS. unfold batch_stack.
      destruct pending as [|p ps]; [cbn in Hnz; lia|].
      rewrite pop_mark_app, rev_involutive. reflexivity.
  - cbn [batch_list] in H.
    apply and_then_ok in H. destruct H as (b1 & i1 & b2 & Hmark & H & ->).
    apply and_then_ok in H. destruct H as (b3 & i3 & b4 & Hunit & Htail & ->).
    inversion Hvalid as [|? ? Hitem Hitems]; subst.
    assert (Sopen : steps ((b1 ++ b3 ++ b4) ++ rest) (batch_stack pending acc under) memo
                      ((b3 ++ b4) ++ rest)
                      (map Obj (rev pending) ++ Mark :: Obj (PList acc) :: under) memo).
    { destruct (Nat.eqb_spec (length pending) 0) as [Hz|Hnz].
      - ok_pair Hmark. destruct pending; [|cbn in Hz; lia].
        apply steps_one; [apply step_MARK | cbn; lia].
      - ok_pair Hmark. destruct pending as [|p ps]; [cbn in Hnz; lia|].
        apply steps_refl. }
    destruct (steps_save_unit _ _ _ _ Hunit Hitem (b4 ++ rest)
                (map Obj (rev pending) ++ Mark :: Obj (PList acc) :: under) memo)
      as (memo1 & Sunit).
    rewrite <- batch_stack_snoc in Sunit.
    destruct (Nat.eqb_spec (S (length pending)) BATCHSIZE) as [Hfull|Hmore].
    + apply and_then_ok in Htail. destruct Htail as (b5 & i5 & b6 & Happ & Htail & ->).
      ok_pair Happ.
      destruct (IH _ _ _ _ Htail Hitems [] (acc ++ pending ++ [of_unit item]) under rest memo1
                  eq_refl) as (memo2 & Stail).
      exists memo2.
      eapply steps_trans; [exact Sopen|]. rewrite <- app_assoc.
      eapply steps_trans; [exact Sunit|]. rewrite <- app_assoc.
      eapply steps_step; [| |].
      * cbn [app]. rewrite step_APPENDS, batch_stack_snoc.
        change (Obj (of_unit item) :: map Obj (rev pending) ++ Mark :: Obj (PList acc) :: under)
          with (map Obj (of_unit item :: rev pending) ++ Mark :: Obj (PList acc) :: under).
        rewrite pop_mark_app. cbn [rev]. rewrite rev_involutive. reflexivity.
      * cbn. lia.
      * cbn [app] in Stail. unfold batch_stack in Stail at 1.
        cbn [map]. replace (acc ++ pending ++ of_unit item :: map of_unit items)
          with ((acc ++ pending ++ [of_unit item]) ++ map of_unit items)
          by (repeat rewrite <- app_assoc; reflexivity).
        exact Stail.
    + destruct (IH _ _ _ _ Htail Hitems (pending ++ [of_unit item]) acc under rest memo1)
        as (memo2 & Stail).
      { rewrite length_app. cbn. lia. }
      exists memo2.
      eapply steps_trans; [exact Sopen|]. rewrite <- app_assoc.
      eapply steps_trans; [exact Sunit|].
      cbn [map]. replace (acc ++ pending ++ of_unit item :: map of_unit items)
        with (acc ++ (pending ++ [of_unit item]) ++ map of_unit items)
        by (repeat rewrite <- app_assoc; reflexivity).
      exact Stail.
Qed.

Lemma as_units_embed : forall units, as_units (map of_unit units) = Some units.
Proof.
  induction units as [|[metric [timestamp value]] units IH]; [reflexivity|].
  cbn [map as_units of_unit as_unit]. rewrite IH. reflexivity.
Qed.

Lemma steps_save_list : forall obj idx bs idx',
  save_list obj idx = Ok (bs, idx') ->
  Forall valid_unit obj ->
  forall rest stack memo,
  exists memo',
    steps (bs ++ rest) stack memo rest (Obj (PList (map of_unit obj)) :: stack) memo'.
Proof.
  intros obj idx bs idx' H Hvalid rest stack memo. unfold save_list in H.
  apply and_then_ok in H. destruct H as (b1 & i1 & b2 & Hw & H & ->).
  apply and_then_ok in H. destruct H as (b3 & i3 & b4 & Hput & Hitems & ->).
  ok_pair Hw.
  destruct (steps_memo_put _ _ _ Hput (b4 ++ rest) (PList []) stack memo) as (memo1 & Sput).
  assert (Sitems : exists memo',
             steps (b4 ++ rest) (Obj (PList []) :: stack) memo1
                   rest (Obj (PList (map of_unit obj)) :: stack) memo').
  { destruct obj as [|item [|item' items]].
    - ok_pair Hitems. exists memo1. apply steps_refl.
    - apply and_then_ok in Hitems. destruct Hitems as (b5 & i5 & b6 & Hunit & Happ & ->).
      ok_pair Happ. inversion Hvalid as [|? ? Hitem _]; subst.
      destruct (steps_save_unit _ _ _ _ Hunit Hitem ([APPEND] ++ rest)
                  (Obj (PList []) :: stack) memo1) as (memo2 & Sunit).
      exists memo2. rewrite <- app_assoc.
      eapply steps_trans; [exact Sunit|].
      apply steps_one; [apply step_APPEND | cbn; lia].
    - destruct (steps_batch_list _ _ _ _ _ Hitems Hvalid [] [] stack rest memo1 eq_refl)
        as (memo2 & Sbatch).
      exists memo2. exact Sbatch. }
  destruct Sitems as (memo2 & Sitems).
  exists memo2. repeat rewrite <- app_assoc.
  eapply steps_step; [apply step_EMPTY_LIST | cbn; lia |].
  eapply steps_trans; [exact Sput | exact Sitems].
Qed.

Lemma loads_dumps : forall obj payload,
  dumps obj = Ok payload ->
  Forall valid_unit obj ->
  loads payload = Some (PList (map of_unit obj)).
Proof.
  intros obj payload H Hvalid. unfold dumps in H.
  destruct ((write [PROTO; 2];; save_list obj;; write [STOP])%pickler 0)
    as [[bs idx]|e] eqn:E; [|discriminate H].
  assert (bs = payload) by congruence. subst bs. clear H.
  apply and_then_ok in E. destruct E as (b1 & i1 & b2 & Hw & E & ->).
  apply and_then_ok in E. destruct E as (b3 & i3 & b4 & Hlist & Hstop & ->).
  ok_pair Hw. ok_pair Hstop.
  destruct (steps_save_list _ _ _ _ Hlist Hvalid [STOP] [] []) as (memo1 & Slist).
  assert (S : steps ([PROTO; 2] ++ b3 ++ [STOP]) [] []
                [STOP] [Obj (PList (map of_unit obj))] memo1).
  { eapply steps_step; [apply step_PROTO | cbn; lia | exact Slist]. }
  unfold loads.
  destruct (run_steps _ _ _ _ _ _ S (length ([PROTO; 2] ++ b3 ++ [STOP])) (le_n _))
    as (fuel & Hfuel & ->).
  destruct fuel as [|fuel]; [cbn in Hfuel; lia|].
  cbn [run]. rewrite step_STOP. reflexivity.
Qed.

Theorem loads_units_dumps : forall units payload,
  dumps units = Ok payload ->
  Forall valid_unit units ->
  loads_units payload = Some units.
Proof.
  intros units payload H Hvalid. unfold loads_units.
  rewrite (loads_dumps _ _ H Hvalid). apply as_units_embed.
Qed.

(** *** The pickler succeeds on units of ordinary size *)

Lemma emits_write : forall bs idx, emits (write bs) idx idx (len bs).
Proof. intros bs idx. exists bs. split; [reflexivity | lia]. Qed.

Lemma emits_and_then : forall p q i j k n m,
  emits p i j n -> emits q j k m -> emits (p ;; q)%pickler i k (n + m).
Proof.
  intros p q i j k n m (b1 & Hp & Hn) (b2 & Hq & Hm).
  exists (b1 ++ b2). unfold and_then. rewrite Hp, Hq. split; [reflexivity|].
  unfold len in *. rewrite length_app. lia.
Qed.

Lemma emits_weaken : forall p i j n m, emits p i j n -> n <= m -> emits p i j m.
Proof. intros p i j n m (bs & Hp & Hn) Hle. exists bs. split; [assumption | lia]. Qed.

Lemma emits_memo_put : forall idx,
  0 <= idx <= 4294967295 -> emits memo_put idx (idx + 1) 5.
Proof.
  intros idx Hidx. unfold emits, memo_put.
  destruct (Z.ltb_spec idx 256).
  - eexists. split; [reflexivity|]. cbn. lia.
  - destruct (Z.leb_spec idx 4294967295); [|lia].
    eexists. split; [reflexivity|]. cbn. lia.
Qed.

Lemma encode_long_length : forall x,
  len (encode_long x) <= bit_length x / 8 + 1.
Proof.
  intros x. unfold encode_long, len.
  assert (Hbl : 0 <= bit_length x).
  { unfold bit_length. destruct (x =? 0); [lia|].
    pose proof (Z.log2_nonneg (Z.abs x)). lia. }
  assert (0 <= bit_length x / 8) by (apply Z.div_pos; lia).
  destruct (x =? 0); [cbn; lia|].
  match goal with |- context [if ?c then _ else _] => destruct c end.
  - rewrite length_firstn, le_bytes_length. lia.
  - rewrite le_bytes_length. lia.
Qed.

Lemma bit_length_64 : forall x, - 2 ^ 63 <= x < 2 ^ 63 -> bit_length x <= 64.
Proof.
  intros x Hx. unfold bit_length. destruct (Z.eqb_spec x 0); [lia|].
  assert (Z.log2 (Z.abs x) <= Z.log2 (2 ^ 63)) by (apply Z.log2_le_mono; lia).
  rewrite Z.log2_pow2 in * by lia. lia.
Qed.

Lemma emits_save_long : forall x idx,
  - 2 ^ 63 <= x < 2 ^ 63 -> emits (save_long x) idx idx 11.
Proof.
  intros x idx Hx. unfold save_long.
  destruct ((-2147483648 <=? x) && (x <=? 2147483647)).
  - match goal with |- context [if ?c then _ else _] => destruct c end;
      [|match goal with |- context [if ?c then _ else _] => destruct c end];
      (eapply emits_weaken; [apply emits_write|]);
      unfold len; cbn [length]; rewrite ?length_firstn, ?le_bytes_length; lia.
  - pose proof (encode_long_length x) as Hl.
    pose proof (bit_length_64 x Hx) as Hb.
    assert (bit_length x / 8 <= 8) by (apply Z.div_le_upper_bound; lia).
    destruct (Z.ltb_spec (len (encode_long x)) 256); [|lia].
    eapply emits_weaken; [apply emits_write|].
    unfold len in *. cbn [length]. lia.
Qed.

Lemma utf8_char_length : forall c, (length (utf8_char c) <= 4)%nat.
Proof.
  intros c. unfold utf8_char.
  destruct (c <? 128); [cbn; lia|].
  destruct (c <? 2048); [cbn; lia|].
  destruct (c <? 65536); cbn; lia.
Qed.

Lemma utf8_encode_length : forall s, (length (utf8_encode s) <= 4 * length s)%nat.
Proof.
  induction s as [|c s IH]; [cbn; lia|].
  unfold utf8_encode in *. cbn [flat_map length]. rewrite length_app.
  pose proof (utf8_char_length c). lia.
Qed.

Lemma emits_save_unicode : forall s idx,
  Z.of_nat (length s) <= 1000 -> 0 <= idx <= 4294967295 ->
  emits (save_unicode s) idx (idx + 1) 4010.
Proof.
  intros s idx Hs Hidx. unfold save_unicode.
  pose proof (utf8_encode_length s) as Hl.
  destruct (Z.leb_spec (len (utf8_encode s)) 4294967295); [|unfold len in *; lia].
  eapply emits_weaken.
  - eapply emits_and_then; [apply emits_write | now apply emits_memo_put].
  - unfold len in *. cbn [length]. rewrite length_app, le_bytes_length. lia.
Qed.

Lemma emits_save_unit : forall u idx,
  small_unit u -> 0 <= idx <= 4294967293 ->
  emits (save_unit u) idx (idx + 3) 4044.
Proof.
  intros [metric [timestamp value]] idx (Hm & Ht & Hv) Hidx. unfold save_unit.
  replace (idx + 3) with (idx + 1 + 1 + 1) by lia.
  eapply emits_weaken.
  - eapply emits_and_then; [apply emits_save_unicode; [exact Hm | lia]|].
    eapply emits_and_then.
    + eapply emits_and_then; [apply emits_save_long; exact Ht|].
      eapply emits_and_then; [apply emits_save_long; exact Hv|].
      eapply emits_and_then; [apply emits_write | apply emits_memo_put; lia].
    + eapply emits_and_then; [apply emits_write | apply emits_memo_put; lia].
  - cbn. lia.
Qed.

Lemma emits_batch_list : forall items this_batch idx,
  Forall small_unit items ->
  0 <= idx -> idx + 3 * Z.of_nat (length items) <= 4294967295 ->
  emits (batch_list items this_batch) idx (idx + 3 * Z.of_nat (length items))
        (4046 * Z.of_nat (length items) + 1).
Proof.
  induction items as [|item items IH]; intros this_batch idx Hsmall Hidx Hmemo.
  - cbn [batch_list length]. replace (idx + 3 * Z.of_nat 0) with idx by lia.
    destruct (Nat.eqb this_batch 0);
      (eapply emits_weaken; [apply emits_write | cbn; lia]).
  - inversion Hsmall as [|? ? Hitem Hitems]; subst.
    cbn [batch_list]. cbn [length] in *. rewrite Nat2Z.inj_succ in *.
    replace (idx + 3 * Z.succ (Z.of_nat (length items)))
      with (idx + 3 + 3 * Z.of_nat (length items)) by lia.
    eapply emits_weaken.
    + eapply emits_and_then.
      { instantiate (1 := 1). instantiate (1 := idx).
        destruct (Nat.eqb this_batch 0);
          (eapply emits_weaken; [apply emits_write | cbn; lia]). }
      eapply emits_and_then; [apply emits_save_unit; [exact Hitem | lia]|].
      instantiate (1 := 1 + (4046 * Z.of_nat (length items) + 1)).
      destruct (Nat.eqb (S this_batch) BATCHSIZE).
      * eapply emits_and_then; [apply emits_write | apply IH; [assumption|lia|lia]].
      * eapply emits_weaken; [apply IH; [assumption|lia|lia] | lia].
    + lia.
Qed.

Lemma dumps_total : forall units,
  Forall small_unit units -> Z.of_nat (length units) <= 100000 ->
  exists payload, dumps units = Ok payload /\ len payload <= 4294967295.
Proof.
  intros units Hsmall Hlen.
  assert (E : emits (write [PROTO; 2] ;; save_list units ;; write [STOP])%pickler 0
                (1 + 3 * Z.of_nat (length units))
                (2 + ((1 + (5 + (4046 * Z.of_nat (length units) + 1))) + 1))).
  { eapply emits_and_then; [apply emits_write|].
    eapply emits_and_then; [|apply emits_write].
    unfold save_list.
    eapply emits_and_then; [apply emits_write|].
    replace (1 + 3 * Z.of_nat (length units)) with (0 + 1 + 3 * Z.of_nat (length units)) by lia.
    eapply emits_and_then; [apply emits_memo_put; lia|].
    destruct units as [|item [|item' items]].
    - eapply emits_weaken; [apply emits_write | cbn; lia].
    - inversion Hsmall as [|? ? Hitem _]; subst.
      eapply emits_weaken.
      + eapply emits_and_then; [apply emits_save_unit; [exact Hitem | lia]|apply emits_write].
      + cbn. lia.
    - apply emits_batch_list; [assumption | lia | lia]. }
  destruct E as (payload & Hp & Hn).
  exists payload. unfold dumps. rewrite Hp. split; [reflexivity | lia].
Qed.

(** A stream as CPython writes it when the two units hold the same string
    object: the second identifier is fetched from the memo ([BINGET 1]). *)
Example loads_units_shared_identifier :
  loads_units
    [128; 2; 93; 113; 0; 40; 88; 8; 0; 0; 0; 99; 112; 117; 46; 108; 111; 97; 100;
     113; 1; 75; 100; 75; 5; 134; 113; 2; 134; 113; 3; 104; 1; 75; 200; 75; 6;
     134; 113; 4; 134; 113; 5; 101; 46]
  = Some [(lit "cpu.load", (100, 5)); (lit "cpu.load", (200, 6))].
Proof. vm_compute. reflexivity. Qed.

End PickleFacts.




(** ** Name sanitizing *)

Lemma join_dot_two_or_more : forall p q rest,
  join (lit ".") (p :: q :: rest) <> [].
Proof.
  intros p q rest H.
  change (join (lit ".") (p :: q :: rest))
    with (p ++ lit "." ++ join (lit ".") (q :: rest)) in H.
  apply app_eq_nil in H. destruct H as [_ H]. discriminate H.
Qed.

(** C8 (amended). Sanitizing an empty segment sequence returns the empty
    string and raises nothing; a non-empty segment sequence gives a non-empty
    identifier except when it is a single segment whose escaped form is
    empty. *)
Theorem C8_sanitize_empty_iff :
  forall (encode : pystr -> pystr) (segments : list pystr),
    AIOGraphite._to_graphite_valid_metric_name encode segments = []
    <-> segments = [] \/ exists s, segments = [s] /\ encode s = [].
Proof.
  intros encode segments. unfold AIOGraphite._to_graphite_valid_metric_name.
  destruct segments as [|s [|s' rest]].
  - split; [now left | reflexivity].
  - simpl. split.
    + intros H. right. exists s. now split.
    + intros [H | (s0 & H & Hs)]; [discriminate H|]. now inversion H; subst.
  - split.
    + intros H. exfalso. revert H. apply join_dot_two_or_more.
    + intros [H | (s0 & H & _)]; discriminate H.
Qed.

(** C8, as stated, fails: the empty segment sequence is answered with the
    empty string, not with an error, and the one-segment sequence [[""]] is
    non-empty and gives the empty identifier. *)
Lemma C8_empty_path_returns_empty_string :
  AIOGraphite._to_graphite_valid_metric_name (GraphiteEncoder.encode (lit "-")) [] = []
  /\ AIOGraphite._to_graphite_valid_metric_name (GraphiteEncoder.encode (lit "-")) [[]] = [].
Proof. split; reflexivity. Qed.

(** ** Disconnecting *)

(** C9. Awaiting [disconnect] returns normally in every state of the session
    (writer never set, [None], or open, whatever [close] does), writes
    nothing, calls [close] only on an open writer, leaves the writer [None];
    awaited again it returns normally and changes nothing. *)
Theorem C9_disconnect_idempotent : forall self,
  exists self',
    AIOGraphite.disconnect self = (Ok tt, self')
    /\ writer self' = IsNone
    /\ written self' = written self
    /\ closes self' = match writer self with
                      | Writer _ => S (closes self)
                      | _ => closes self
                      end
    /\ AIOGraphite.disconnect self' = (Ok tt, self').
Proof.
  intros self. unfold AIOGraphite.disconnect, try_finally, try_except, writer_close.
  destruct (writer self) as [| |sw] eqn:Hw.
  - eexists. repeat split; cbn; reflexivity.
  - eexists. repeat split; cbn; reflexivity.
  - destruct (close_raises sw) as [e|].
    + destruct e; eexists; repeat split; cbn; reflexivity.
    + eexists. repeat split; cbn; reflexivity.
Qed.

(** ** The timestamp of a call *)





Lemma quot_bounds_nonneg : forall n d,
  0 <= n -> 0 < d -> (n ÷ d) * d <= n < (n ÷ d + 1) * d.
Proof.
  intros n d Hn Hd. rewrite Z.quot_div_nonneg by lia.
  pose proof (Z.mul_div_le n d Hd). pose proof (Z.mul_succ_div_gt n d Hd). lia.
Qed.

Lemma quot_bounds_nonpos : forall n d,
  n <= 0 -> 0 < d -> (n ÷ d - 1) * d < n <= (n ÷ d) * d.
Proof.
  intros n d Hn Hd.
  replace n with (- (- n)) by lia. rewrite Z.quot_opp_l by lia.
  pose proof (quot_bounds_nonneg (- n) d ltac:(lia) Hd). lia.
Qed.

(** [int] of a float drops the fractional part, toward zero. *)
Lemma int_truncates : forall q,
  (0 <= q -> inject_Z (int_ (PyFloat q)) <= q < inject_Z (int_ (PyFloat q)) + 1)%Q
  /\ (q <= 0 -> inject_Z (int_ (PyFloat q)) - 1 < q <= inject_Z (int_ (PyFloat q)))%Q.
Proof.
  intros [n d]. unfold int_, Qle, Qlt. cbn [Qnum Qden inject_Z Qplus Qminus Qopp]. cbn.
  split; intros H.
  - pose proof (quot_bounds_nonneg n (Z.pos d) ltac:(lia) ltac:(lia)). lia.
  - pose proof (quot_bounds_nonpos n (Z.pos d) ltac:(lia) ltac:(lia)). lia.
Qed.



(** ** What the sending coroutines do to the connection *)

Lemma listOfData_is_unbound : name_is_bound "listOfData" = false.
Proof. reflexivity. Qed.

Lemma for_data_in_raises : forall data rest timestamp,
  AIOGraphite.for_data_in (data :: rest) timestamp = Raise NameError.
Proof. intros [metric value | metric value data_timestamp] rest timestamp; reflexivity. Qed.

(** The awaited path: one write of the encoded message. *)
Lemma send_message_writes_once : forall message self sw,
  writer self = Writer sw ->
  written (snd (AIOGraphite._send_message message self)) = written self ++ [message].
Proof.
  intros message self sw Hw.
  unfold AIOGraphite._send_message, bind, await, writer_write, writer_drain.
  rewrite Hw. cbn. rewrite Hw. destruct (drain_raises sw); reflexivity.
Qed.

Lemma send_single_valid_metric_writes_once :
  forall now metric value timestamp self sw message,
    writer self = Writer sw ->
    generate_message_function (protocol self)
      [data_formate_function (protocol self) metric value (int_ (or_time timestamp now))]
    = Ok message ->
    written (snd (AIOGraphite.send_single_valid_metric now metric value timestamp self))
    = written self ++ [message].
Proof.
  intros now metric value timestamp self sw message Hw Hm.
  unfold AIOGraphite.send_single_valid_metric, bind, lift, await. rewrite Hm.
  now apply send_message_writes_once with (sw := sw).
Qed.

(** With no writer, the awaited path raises before anything is written. *)
Lemma send_message_not_connected : forall message self,
  writer self = Unset \/ writer self = IsNone ->
  AIOGraphite._send_message message self = (Raise AttributeError, self).
Proof.
  intros message self [Hw | Hw];
    unfold AIOGraphite._send_message, bind, writer_write; now rewrite Hw.
Qed.

(** C4. A batch with any entry in it never reaches the encoder: the loop of
    [_generate_message_for_data_list] raises [NameError] at its first entry,
    so no entry is given a timestamp, explicit or default, and the session is
    left as it was. *)
Theorem C4_batch_raises_NameError :
  forall (now : Q) (data : datum pystr) (rest : list (datum pystr))
         (timestamp : option pynum) (self : world),
    AIOGraphite.send_valid_metric_list now (data :: rest) timestamp self
    = (Raise NameError, self).
Proof.
  intros now data rest timestamp self.
  unfold AIOGraphite.send_valid_metric_list, AIOGraphite._generate_message_for_data_list,
    bind, lift.
  rewrite for_data_in_raises. reflexivity.
Qed.

(** C5. On a connected session an empty batch given to
    [send_valid_metric_list] is encoded and written: one write, of the frame
    of the empty list.  [send_metric_list] returns at once on an empty
    dataset. *)
Theorem C5_empty_batch_is_written :
  forall (now : Q) (timestamp : option pynum),
    AIOGraphite.send_valid_metric_list now [] timestamp connected_session
    = (Ok tt, add_write [0; 0; 0; 6; 128; 2; 93; 113; 0; 46] connected_session)
    /\ written (add_write [0; 0; 0; 6; 128; 2; 93; 113; 0; 46] connected_session)
       = [[0; 0; 0; 6; 128; 2; 93; 113; 0; 46]]
    /\ forall encode self,
         AIOGraphite.send_metric_list encode now [] timestamp self = (Ok tt, self).
Proof.
  intros now timestamp. split; [|split]; reflexivity.
Qed.

(** C6. The wrappers build the coroutine of the sending method and never
    await it: [send_single_metric], [send_metric_list] and
    [send_valid_metric_dict] leave the list of writes as it was, on every
    session and for every input. *)
Theorem C6_wrappers_write_nothing :
  forall (encode : pystr -> pystr) (now : Q) (timestamp : option pynum) (self : world),
    (forall metric_dir_list value,
        AIOGraphite.send_single_metric encode now metric_dir_list value timestamp self
        = (Ok tt, self))
    /\ (forall dataset,
        AIOGraphite.send_valid_metric_dict now dataset timestamp self = (Ok tt, self))
    /\ (forall dataset,
        snd (AIOGraphite.send_metric_list encode now dataset timestamp self) = self).
Proof.
  intros encode now timestamp self. split; [|split].
  - reflexivity.
  - reflexivity.
  - intros [|first rest]; [reflexivity|].
    unfold AIOGraphite.send_metric_list, bind, lift, not_awaited, ret.
    destruct (match first with
              | Datum2 _ _ => AIOGraphite.unpack_pairs encode (first :: rest)
              | Datum3 _ _ _ => AIOGraphite.unpack_triples encode (first :: rest)
              end); reflexivity.
Qed.

(** C7. Before the connection is made, and after [disconnect], the awaited
    path raises [AttributeError] and writes nothing, while the wrapper
    [send_single_metric] returns normally, raising nothing. *)
Theorem C7_wrapper_returns_normally_unconnected :
  forall (encode : pystr -> pystr) (now : Q),
    writer new_session = Unset
    /\ writer disconnected_session = IsNone
    /\ AIOGraphite.send_single_metric encode now [lit "a"] 1 (Some (PyInt 100)) new_session
       = (Ok tt, new_session)
    /\ AIOGraphite.send_single_metric encode now [lit "a"] 1 (Some (PyInt 100))
         disconnected_session
       = (Ok tt, disconnected_session)
    /\ AIOGraphite.send_single_valid_metric now (lit "a") 1 (Some (PyInt 100)) new_session
       = (Raise AttributeError, new_session)
    /\ AIOGraphite.send_single_valid_metric now (lit "a") 1 (Some (PyInt 100))
         disconnected_session
       = (Raise AttributeError, disconnected_session).
Proof.
  intros encode now. repeat split.
Qed.

(** * Further properties *)

(** ** More on the session *)

Lemma send_message_connected : forall message self sw,
  writer self = Writer sw ->
  AIOGraphite._send_message message self
  = (match drain_raises sw with
     | Some e => Raise e
     | None => Ok tt
     end, add_write message self).
Proof.
  intros message self sw Hw.
  unfold AIOGraphite._send_message, bind, await, writer_write, writer_drain.
  rewrite Hw. cbn [writer add_write]. rewrite Hw.
  destruct (drain_raises sw); reflexivity.
Qed.

(** The send on a session that holds a writer. *)
Lemma send_on_open_writer :
  forall now metric value timestamp self sw message,
    writer self = Writer sw ->
    generate_message_function (protocol self)
      [data_formate_function (protocol self) metric value (int_ (or_time timestamp now))]
    = Ok message ->
    AIOGraphite.send_single_valid_metric now metric value timestamp self
    = (match drain_raises sw with
       | Some e => Raise e
       | None => Ok tt
       end, add_write message self).
Proof.
  intros now metric value timestamp self sw message Hw Hm.
  unfold AIOGraphite.send_single_valid_metric, bind, lift, await. rewrite Hm.
  now apply send_message_connected.
Qed.

(** X1. On a connected session [send_single_valid_metric] hands the encoded
    message to the writer exactly once and changes nothing else; it returns
    normally when the drain does, and raises what the drain raises, the
    message being written all the same. *)
Theorem send_single_valid_metric_connected :
  forall now metric value timestamp self sw message,
    writer self = Writer sw ->
    generate_message_function (protocol self)
      [data_formate_function (protocol self) metric value (int_ (or_time timestamp now))]
    = Ok message ->
    AIOGraphite.send_single_valid_metric now metric value timestamp self
    = (match drain_raises sw with
       | Some e => Raise e
       | None => Ok tt
       end, add_write message self).
Proof. exact send_on_open_writer. Qed.

Lemma send_single_valid_metric_connected_witness :
  AIOGraphite.send_single_valid_metric (3 # 2) (lit "x") 5 (Some (PyInt 100)) connected_session
  = (Ok tt,
     add_write [0; 0; 0; 25; 128; 2; 93; 113; 0; 88; 1; 0; 0; 0; 120; 113; 1; 75; 100;
                75; 5; 134; 113; 2; 134; 113; 3; 97; 46] connected_session).
Proof.
  apply (send_single_valid_metric_connected (3 # 2) (lit "x") 5 (Some (PyInt 100))
           connected_session ok_writer); reflexivity.
Defined.

(** An exception of the encoder comes out of [send_single_valid_metric]
    before anything is written. *)
Lemma send_single_valid_metric_encoding_error :
  forall now metric value timestamp self e,
    generate_message_function (protocol self)
      [data_formate_function (protocol self) metric value (int_ (or_time timestamp now))]
    = Raise e ->
    AIOGraphite.send_single_valid_metric now metric value timestamp self = (Raise e, self).
Proof.
  intros now metric value timestamp self e Hm.
  unfold AIOGraphite.send_single_valid_metric, bind, lift. now rewrite Hm.
Qed.



(** The send on a session that holds no writer. *)
Lemma send_without_writer :
  forall now metric value timestamp self,
    writer self = Unset \/ writer self = IsNone ->
    AIOGraphite.send_single_valid_metric now metric value timestamp self
    = (match generate_message_function (protocol self)
               [data_formate_function (protocol self) metric value
                  (int_ (or_time timestamp now))] with
       | Ok _ => Raise AttributeError
       | Raise e => Raise e
       end, self).
Proof.
  intros now metric value timestamp self Hw.
  unfold AIOGraphite.send_single_valid_metric, bind, lift, await.
  destruct (generate_message_function (protocol self) _) as [message|e]; [|reflexivity].
  now apply send_message_not_connected.
Qed.

(** X2. With no writer (the connection never made, or closed by
    [disconnect]) [send_single_valid_metric] raises and writes nothing: the
    encoder's exception if the message does not encode, [AttributeError]
    otherwise. *)
Theorem send_single_valid_metric_not_connected :
  forall now metric value timestamp self,
    writer self = Unset \/ writer self = IsNone ->
    AIOGraphite.send_single_valid_metric now metric value timestamp self
    = (match generate_message_function (protocol self)
               [data_formate_function (protocol self) metric value
                  (int_ (or_time timestamp now))] with
       | Ok _ => Raise AttributeError
       | Raise e => Raise e
       end, self).
Proof. exact send_without_writer. Qed.

Lemma send_single_valid_metric_not_connected_witness :
  AIOGraphite.send_single_valid_metric (3 # 2) (lit "x") 5 None new_session
  = (Raise AttributeError, new_session).
Proof.
  apply (send_single_valid_metric_not_connected (3 # 2) (lit "x") 5 None new_session).
  left. reflexivity.
Defined.

Lemma send_message_frame : forall message self,
  snd (AIOGraphite._send_message message self) = self
  \/ snd (AIOGraphite._send_message message self) = add_write message self.
Proof.
  intros message self.
  unfold AIOGraphite._send_message, bind, await, writer_write, writer_drain.
  destruct (writer self) as [| |sw] eqn:Hw; [now left | now left|].
  right. cbn [writer add_write]. rewrite Hw. destruct (drain_raises sw); reflexivity.
Qed.

(** X3. Whatever its input and whatever the state of the session, an
    awaited [send_single_valid_metric] or [send_valid_metric_list] leaves the
    session exactly as it was or as it was with one message appended to the
    writes: it never writes twice, never touches an earlier write, and never
    closes or replaces the writer, even when the drain raises. *)
Theorem send_operations_append_at_most_one_write :
  forall (now : Q) (timestamp : option pynum) (self : world),
    (forall metric value,
        let self' := snd (AIOGraphite.send_single_valid_metric now metric value timestamp self) in
        self' = self \/ exists message, self' = add_write message self)
    /\ (forall dataset,
        let self' := snd (AIOGraphite.send_valid_metric_list now dataset timestamp self) in
        self' = self \/ exists message, self' = add_write message self).
Proof.
  intros now timestamp self. split.
  - intros metric value. cbv zeta.
    unfold AIOGraphite.send_single_valid_metric, bind, lift, await.
    destruct (generate_message_function (protocol self) _) as [message|e]; [|now left].
    destruct (send_message_frame message self) as [H|H]; [now left|].
    right. now exists message.
  - intros dataset. cbv zeta.
    unfold AIOGraphite.send_valid_metric_list, bind, lift, await.
    destruct (AIOGraphite._generate_message_for_data_list _ _ _ _) as [message|e];
      [|now left].
    destruct (send_message_frame message self) as [H|H]; [now left|].
    right. now exists message.
Qed.

(** X4. Two sends on a connected session reach the writer in the order of
    the calls, whether or not a drain raises in between. *)
Theorem two_sends_are_written_in_call_order :
  forall now1 metric1 value1 timestamp1 now2 metric2 value2 timestamp2 self sw
         message1 message2,
    writer self = Writer sw ->
    generate_message_function (protocol self)
      [data_formate_function (protocol self) metric1 value1
         (int_ (or_time timestamp1 now1))] = Ok message1 ->
    generate_message_function (protocol self)
      [data_formate_function (protocol self) metric2 value2
         (int_ (or_time timestamp2 now2))] = Ok message2 ->
    written
      (snd (AIOGraphite.send_single_valid_metric now2 metric2 value2 timestamp2
              (snd (AIOGraphite.send_single_valid_metric now1 metric1 value1 timestamp1
                      self))))
    = written self ++ [message1; message2].
Proof.
  intros now1 metric1 value1 timestamp1 now2 metric2 value2 timestamp2 self sw
         message1 message2 Hw H1 H2.
  rewrite (send_on_open_writer now1 metric1 value1 timestamp1 self sw
             message1 Hw H1).
  cbn [snd].
  rewrite (send_on_open_writer now2 metric2 value2 timestamp2
             (add_write message1 self) sw message2 Hw H2).
  cbn [snd add_write written]. rewrite <- app_assoc. reflexivity.
Qed.

Lemma two_sends_are_written_in_call_order_witness :
  written
    (snd (AIOGraphite.send_single_valid_metric (5 # 2) (lit "y") 6 None
            (snd (AIOGraphite.send_single_valid_metric (3 # 2) (lit "x") 5 None
                    (plaintext_session connected_session)))))
  = written (plaintext_session connected_session)
    ++ [lit "x 5 1" ++ [10]; lit "y 6 2" ++ [10]].
Proof.
  apply (two_sends_are_written_in_call_order (3 # 2) (lit "x") 5 None (5 # 2) (lit "y") 6 None
           (plaintext_session connected_session) ok_writer); reflexivity.
Defined.

(** ** More on the Line encoding *)

Lemma encode_ascii_cases : forall s,
  (ascii_str s /\ encode_ascii s = Ok s)
  \/ (~ ascii_str s /\ encode_ascii s = Raise UnicodeEncodeError).
Proof.
  intros s. unfold encode_ascii.
  destruct (forallb (fun c => (0 <=? c) && (c <? 128)) s) eqn:E.
  - left. split; [|reflexivity].
    rewrite forallb_forall in E. apply Forall_forall. intros c Hc.
    specialize (E c Hc). apply andb_true_iff in E. destruct E as [H0 H1].
    apply Z.leb_le in H0. apply Z.ltb_lt in H1. lia.
  - right. split; [|reflexivity]. intros H.
    assert (forallb (fun c => (0 <=? c) && (c <? 128)) s = true); [|congruence].
    apply forallb_forall. intros c Hc. unfold ascii_str in H.
    rewrite Forall_forall in H. specialize (H c Hc).
    apply andb_true_iff. split; [apply Z.leb_le | apply Z.ltb_lt]; lia.
Qed.

Lemma ascii_str_app_iff : forall s t, ascii_str (s ++ t) <-> ascii_str s /\ ascii_str t.
Proof. intros s t. unfold ascii_str. apply Forall_app. Qed.

Lemma ascii_format_line_iff : forall sample,
  ascii_str (format_line sample) <-> ascii_str (fst (fst sample)).
Proof.
  intros [[metric value] timestamp]. cbn [fst]. split.
  - unfold format_line, PlaintextProtocol.data_formate_function. cbn [join].
    rewrite <- app_assoc. intros H. apply ascii_str_app_iff in H. tauto.
  - intros H. now apply (ascii_format_line (metric, value, timestamp)).
Qed.

Lemma ascii_concat_lines_iff : forall samples,
  ascii_str (concat (map format_line samples))
  <-> Forall (fun sample => ascii_str (fst (fst sample))) samples.
Proof.
  induction samples as [|sample samples IH]; cbn [map concat].
  - split; intros _; constructor.
  - rewrite ascii_str_app_iff, IH, ascii_format_line_iff. split.
    + intros [H1 H2]. now constructor.
    + intros H. inversion H; subst. now split.
Qed.

(** When the Line batch encoder fails. *)
Lemma line_batch_failure : forall samples,
  PlaintextProtocol.generate_message_function (map format_line samples)
  = Raise UnicodeEncodeError
  <-> exists sample, In sample samples /\ ~ ascii_str (fst (fst sample)).
Proof.
  intros samples. unfold PlaintextProtocol.generate_message_function.
  rewrite join_empty_concat.
  destruct (encode_ascii_cases (concat (map format_line samples))) as [[Ha ->]|[Hn ->]].
  - split; [discriminate|]. intros (sample & Hin & Hbad).
    apply ascii_concat_lines_iff in Ha. rewrite Forall_forall in Ha.
    exfalso. apply Hbad. now apply Ha.
  - split; [|reflexivity]. intros _.
    rewrite ascii_concat_lines_iff in Hn.
    apply neg_Forall_Exists_neg in Hn.
    + apply Exists_exists in Hn. exact Hn.
    + intros sample. unfold ascii_str. apply Forall_dec.
      intros c. destruct (Z_le_dec 0 c), (Z_lt_dec c 128); [left|right|right|right]; lia.
Qed.

(** X5. The Line batch encoder fails exactly when some identifier of the
    batch has a character outside ASCII, and then with [UnicodeEncodeError];
    the value and the timestamp never make it fail. *)
Theorem line_batch_fails_iff_non_ascii_identifier : forall samples,
  PlaintextProtocol.generate_message_function (map format_line samples)
  = Raise UnicodeEncodeError
  <-> exists sample, In sample samples /\ ~ ascii_str (fst (fst sample)).
Proof. exact line_batch_failure. Qed.

(** ** More on the Framed-Binary encoding *)

Lemma generate_message_parts : forall units message,
  PickleProtocol.generate_message_function units = Ok message ->
  exists header payload,
    Pickle.dumps units = Ok payload
    /\ struct_pack_L (Pickle.len payload) = Ok header
    /\ message = header ++ payload
    /\ length header = 4%nat.
Proof.
  intros units message H.
  unfold PickleProtocol.generate_message_function, rbind in H.
  destruct (Pickle.dumps units) as [payload|e]; [|discriminate H].
  destruct (struct_pack_L (Pickle.len payload)) as [header|e] eqn:Hh; [|discriminate H].
  exists header, payload.
  split; [reflexivity|]. split; [exact Hh|]. split; [congruence|].
  now apply struct_pack_L_length with (n := Pickle.len payload).
Qed.

Lemma skipn_header : forall (header payload : bytes),
  length header = 4%nat -> skipn 4 (header ++ payload) = payload.
Proof.
  intros header payload Hl.
  rewrite skipn_app, Hl, Nat.sub_diag, skipn_all2 by lia. reflexivity.
Qed.




Module OctetFacts.

Import Pickle PickleFacts.














End OctetFacts.



(** X8. On a connected session with the Framed-Binary protocol, a sample of
    ordinary size is written as one message, and what the receiver unpickles
    from that message past its header is the one-sample list
    [(metric, (timestamp, value))], the timestamp being the integer the call
    settled on. *)
Theorem framed_binary_send_is_read_back :
  forall now metric value timestamp self sw,
    writer self = Writer sw ->
    protocol self = PickleProtocol_ ->
    valid_str metric ->
    Z.of_nat (length metric) <= 1000 ->
    - 2 ^ 63 <= value < 2 ^ 63 ->
    - 2 ^ 63 <= int_ (or_time timestamp now) < 2 ^ 63 ->
    exists message,
      AIOGraphite.send_single_valid_metric now metric value timestamp self
      = (match drain_raises sw with
         | Some e => Raise e
         | None => Ok tt
         end, add_write message self)
      /\ Unpickler.loads_units (skipn 4 message)
         = Some [(metric, (int_ (or_time timestamp now), value))].
Proof.
  intros now metric value timestamp self sw Hw Hp Hvalid Hlen Hvalue Hts.
  set (units := [(metric, (int_ (or_time timestamp now), value))]).
  assert (Hv : Forall Pickle.valid_unit units) by (constructor; [exact Hvalid | constructor]).
  assert (Hs : Forall Pickle.small_unit units).
  { constructor; [|constructor]. unfold Pickle.small_unit. repeat split; lia. }
  destruct (PickleFacts.dumps_total units Hs ltac:(cbn; lia)) as (payload & Hd & Hn).
  destruct (frame_of_payload units payload Hd Hn) as (header & Hgen & Hl & _).
  exists (header ++ payload). split.
  - apply send_on_open_writer; [exact Hw|]. rewrite Hp. exact Hgen.
  - rewrite (skipn_header header payload Hl).
    now apply PickleFacts.loads_units_dumps.
Qed.

Lemma framed_binary_send_is_read_back_witness :
  exists message,
    AIOGraphite.send_single_valid_metric (3 # 2) (lit "x") 5 None connected_session
    = (Ok tt, add_write message connected_session)
    /\ Unpickler.loads_units (skipn 4 message) = Some [(lit "x", (1, 5))].
Proof.
  apply (framed_binary_send_is_read_back (3 # 2) (lit "x") 5 None connected_session
           ok_writer).
  - reflexivity.
  - reflexivity.
  - repeat constructor; unfold valid_codepoint; lia.
  - cbn. lia.
  - lia.
  - cbn. lia.
Defined.

(** X9. On a connected session with the Line protocol, a sample whose
    identifier is ASCII is written as the one line
    "<metric> <value> <timestamp>\n", byte for character. *)
Theorem line_send_writes_the_line :
  forall now metric value timestamp self sw,
    writer self = Writer sw ->
    protocol self = PlaintextProtocol_ ->
    ascii_str metric ->
    AIOGraphite.send_single_valid_metric now metric value timestamp self
    = (match drain_raises sw with
       | Some e => Raise e
       | None => Ok tt
       end,
       add_write (metric ++ lit " " ++ str_int value ++ lit " "
                    ++ str_int (int_ (or_time timestamp now)) ++ [10]) self).
Proof.
  intros now metric value timestamp self sw Hw Hp Hm.
  assert (Hgen : PlaintextProtocol.generate_message_function
                   [PlaintextProtocol.data_formate_function metric value
                      (int_ (or_time timestamp now))]
                 = Ok (metric ++ lit " " ++ str_int value ++ lit " "
                         ++ str_int (int_ (or_time timestamp now)) ++ [10])).
  { pose proof (line_batch_returns [(metric, value, int_ (or_time timestamp now))]) as H.
    cbn [map format_line concat] in H. rewrite H by (constructor; [exact Hm | constructor]).
    rewrite app_nil_r. unfold PlaintextProtocol.data_formate_function. cbn [join].
    repeat rewrite <- app_assoc. reflexivity. }
  apply send_on_open_writer; [exact Hw|]. rewrite Hp. exact Hgen.
Qed.

Lemma line_send_writes_the_line_witness :
  AIOGraphite.send_single_valid_metric (3 # 2) (lit "x") 5 (Some (PyInt 100))
    (plaintext_session connected_session)
  = (Ok tt,
     add_write (lit "x" ++ lit " " ++ str_int 5 ++ lit " " ++ str_int 100 ++ [10])
       (plaintext_session connected_session)).
Proof.
  apply (line_send_writes_the_line (3 # 2) (lit "x") 5 (Some (PyInt 100))
           (plaintext_session connected_session) ok_writer).
  - reflexivity.
  - reflexivity.
  - repeat constructor; cbn; lia.
Defined.

(** X10. A session that [disconnect] has closed sends again once
    [_connect_to_graphite] has been awaited with success: the message is
    appended to the writes the session had made, through the new writer. *)
Theorem reconnect_after_disconnect_sends :
  forall now metric value timestamp self sw message,
    generate_message_function (protocol self)
      [data_formate_function (protocol self) metric value (int_ (or_time timestamp now))]
    = Ok message ->
    let closed := snd (AIOGraphite.disconnect self) in
    let reopened := snd (AIOGraphite._connect_to_graphite (Ok sw) closed) in
    AIOGraphite._connect_to_graphite (Ok sw) closed = (Ok tt, reopened)
    /\ writer reopened = Writer sw
    /\ AIOGraphite.send_single_valid_metric now metric value timestamp reopened
       = (match drain_raises sw with
          | Some e => Raise e
          | None => Ok tt
          end, add_write message reopened)
    /\ written (add_write message reopened) = written self ++ [message].
Proof.
  intros now metric value timestamp self sw message Hm closed reopened.
  assert (Hclosed : protocol closed = protocol self /\ written closed = written self).
  { unfold closed, AIOGraphite.disconnect, try_finally, try_except, writer_close.
    destruct (writer self) as [| |sw0]; try (split; reflexivity).
    destruct (close_raises sw0) as [[]|]; split; reflexivity. }
  destruct Hclosed as [Hp Hwr].
  assert (Hre : reopened = set_writer (Writer sw) closed) by reflexivity.
  split; [reflexivity|]. split; [reflexivity|]. split.
  - apply send_on_open_writer; [reflexivity|].
    rewrite Hre. cbn [protocol set_writer]. rewrite Hp. exact Hm.
  - rewrite Hre. cbn [written add_write set_writer]. now rewrite Hwr.
Qed.

Lemma reconnect_after_disconnect_sends_witness :
  written
    (add_write (lit "x 5 100" ++ [10])
       (snd (AIOGraphite._connect_to_graphite (Ok ok_writer)
               (snd (AIOGraphite.disconnect (plaintext_session connected_session))))))
  = written (plaintext_session connected_session) ++ [lit "x 5 100" ++ [10]].
Proof.
  apply (reconnect_after_disconnect_sends (3 # 2) (lit "x") 5 (Some (PyInt 100))
           (plaintext_session connected_session) ok_writer (lit "x 5 100" ++ [10])).
  reflexivity.
Defined.

(** X11. A connection attempt that fails raises [AioGraphiteSendException]
    for a name-resolution failure and the exception itself otherwise, and
    leaves the session as it was: a session that was connected still sends
    through the writer it had. *)
Theorem failed_connect_keeps_the_session :
  forall now metric value timestamp self sw message e,
    writer self = Writer sw ->
    generate_message_function (protocol self)
      [data_formate_function (protocol self) metric value (int_ (or_time timestamp now))]
    = Ok message ->
    AIOGraphite._connect_to_graphite (Raise e) self
    = (Raise (match e with
              | socket_gaierror => AioGraphiteSendException
              | _ => e
              end), self)
    /\ AIOGraphite.send_single_valid_metric now metric value timestamp
         (snd (AIOGraphite._connect_to_graphite (Raise e) self))
       = (match drain_raises sw with
          | Some e' => Raise e'
          | None => Ok tt
          end, add_write message self).
Proof.
  intros now metric value timestamp self sw message e Hw Hm.
  assert (H : AIOGraphite._connect_to_graphite (Raise e) self
              = (Raise (match e with
                        | socket_gaierror => AioGraphiteSendException
                        | _ => e
                        end), self)) by (destruct e; reflexivity).
  split; [exact H|]. rewrite H. cbn [snd].
  now apply send_on_open_writer.
Qed.

Lemma failed_connect_keeps_the_session_witness :
  AIOGraphite._connect_to_graphite (Raise socket_gaierror) connected_session
  = (Raise AioGraphiteSendException, connected_session).
Proof.
  apply (failed_connect_keeps_the_session (3 # 2) (lit "x") 5 (Some (PyInt 100))
           connected_session ok_writer
           [0; 0; 0; 25; 128; 2; 93; 113; 0; 88; 1; 0; 0; 0; 120; 113; 1; 75; 100;
            75; 5; 134; 113; 2; 134; 113; 3; 97; 46] socket_gaierror); reflexivity.
Defined.

(** X12. With the Line protocol, a sample whose identifier has a character
    outside ASCII is never sent: [send_single_valid_metric] raises
    [UnicodeEncodeError] and the session, connected or not, is left as it
    was. *)
Theorem line_send_refuses_non_ascii_identifier :
  forall now metric value timestamp self,
    protocol self = PlaintextProtocol_ ->
    ~ ascii_str metric ->
    AIOGraphite.send_single_valid_metric now metric value timestamp self
    = (Raise UnicodeEncodeError, self).
Proof.
  intros now metric value timestamp self Hp Hm.
  apply send_single_valid_metric_encoding_error. rewrite Hp.
  apply (proj2 (line_batch_failure
                  [(metric, value, int_ (or_time timestamp now))])).
  eexists. split; [now left | exact Hm].
Qed.

Lemma line_send_refuses_non_ascii_identifier_witness :
  AIOGraphite.send_single_valid_metric (3 # 2) [233] 5 (Some (PyInt 100))
    (plaintext_session connected_session)
  = (Raise UnicodeEncodeError, plaintext_session connected_session).
Proof.
  apply (line_send_refuses_non_ascii_identifier (3 # 2) [233] 5 (Some (PyInt 100))
           (plaintext_session connected_session)).
  - reflexivity.
  - intros H. inversion H as [|? ? Hc _]. lia.
Defined.

(** X13. The constructor does not connect: whatever the connection attempt
    would give, the new session has no writer and has written nothing, and a
    send awaited on it raises and writes nothing. *)
Theorem constructor_leaves_the_session_unconnected :
  forall graphite_server graphite_port protocol open_connection now metric value timestamp,
    let self := AIOGraphite.__init__ graphite_server graphite_port protocol open_connection in
    writer self = Unset
    /\ written self = []
    /\ exists e,
         AIOGraphite.send_single_valid_metric now metric value timestamp self
         = (Raise e, self).
Proof.
  intros graphite_server graphite_port protocol open_connection now metric value timestamp.
  cbv zeta. split; [reflexivity|]. split; [reflexivity|].
  rewrite send_without_writer by (left; reflexivity).
  destruct (generate_message_function _ _); eexists; reflexivity.
Qed.

(** ** Batches given as paths *)

Lemma unpack_pairs_cases : forall encode dataset,
  (exists valid, AIOGraphite.unpack_pairs encode dataset = Ok valid
                 /\ forall name value data_timestamp,
                      ~ In (Datum3 name value data_timestamp) dataset)
  \/ (AIOGraphite.unpack_pairs encode dataset = Raise ValueError
      /\ exists name value data_timestamp, In (Datum3 name value data_timestamp) dataset).
Proof.
  intros encode. induction dataset as [|[name value|name value ts] rest IH].
  - left. exists []. split; [reflexivity|]. intros ? ? ? [].
  - cbn [AIOGraphite.unpack_pairs]. destruct IH as [(valid & -> & Hno)|(-> & n & v & t & Hin)].
    + left. eexists. split; [reflexivity|].
      intros n v t [H|H]; [discriminate H | exact (Hno n v t H)].
    + right. split; [reflexivity|]. exists n, v, t. now right.
  - right. split; [reflexivity|]. exists name, value, ts. now left.
Qed.

Lemma unpack_triples_cases : forall encode dataset,
  (exists valid, AIOGraphite.unpack_triples encode dataset = Ok valid
                 /\ forall name value, ~ In (Datum2 name value) dataset)
  \/ (AIOGraphite.unpack_triples encode dataset = Raise ValueError
      /\ exists name value, In (Datum2 name value) dataset).
Proof.
  intros encode. induction dataset as [|[name value|name value ts] rest IH].
  - left. exists []. split; [reflexivity|]. intros ? ? [].
  - right. split; [reflexivity|]. exists name, value. now left.
  - cbn [AIOGraphite.unpack_triples]. destruct IH as [(valid & -> & Hno)|(-> & n & v & Hin)].
    + left. eexists. split; [reflexivity|].
      intros n v [H|H]; [discriminate H | exact (Hno n v H)].
    + right. split; [reflexivity|]. exists n, v. now right.
Qed.

(** X14. [send_metric_list] raises [ValueError] exactly when its dataset
    mixes entries of two and of three components; on every other dataset it
    returns normally. *)
Theorem send_metric_list_raises_iff_mixed :
  forall encode now (dataset : list (datum (list pystr))) timestamp self,
    let outcome := fst (AIOGraphite.send_metric_list encode now dataset timestamp self) in
    (outcome = Raise ValueError
     <-> (exists name value, In (Datum2 name value) dataset)
         /\ (exists name value data_timestamp,
               In (Datum3 name value data_timestamp) dataset))
    /\ (outcome = Ok tt \/ outcome = Raise ValueError).
Proof.
  intros encode now dataset timestamp self. cbv zeta.
  destruct dataset as [|first rest].
  - cbn. split; [|now left]. split; [discriminate|]. intros [(? & ? & []) _].
  - unfold AIOGraphite.send_metric_list, bind, lift, not_awaited, ret.
    destruct first as [name value|name value ts].
    + destruct (unpack_pairs_cases encode (Datum2 name value :: rest))
        as [(valid & -> & Hno)|(-> & n & v & t & Hin)]; cbn [fst].
      * split; [|now left]. split; [discriminate|].
        intros [_ (n & v & t & Hin)]. exfalso. exact (Hno n v t Hin).
      * split; [|now right]. split; [|reflexivity]. intros _. split.
        -- exists name, value. now left.
        -- now exists n, v, t.
    + destruct (unpack_triples_cases encode (Datum3 name value ts :: rest))
        as [(valid & -> & Hno)|(-> & n & v & Hin)]; cbn [fst].
      * split; [|now left]. split; [discriminate|].
        intros [(n & v & Hin) _]. exfalso. exact (Hno n v Hin).
      * split; [|now right]. split; [|reflexivity]. intros _. split.
        -- now exists n, v.
        -- exists name, value, ts. now left.
Qed.

(** ** Names *)

Lemma join_dot_cons : forall p q rest,
  join (lit ".") (p :: q :: rest) = p ++ 46 :: join (lit ".") (q :: rest).
Proof. reflexivity. Qed.

(** X15. The name of a path made of two non-empty paths is the two names
    joined by a dot. *)
Theorem name_of_concatenated_paths : forall encode prefix path,
  prefix <> [] -> path <> [] ->
  AIOGraphite._to_graphite_valid_metric_name encode (prefix ++ path)
  = AIOGraphite._to_graphite_valid_metric_name encode prefix
    ++ lit "."
    ++ AIOGraphite._to_graphite_valid_metric_name encode path.
Proof.
  intros encode prefix path Hprefix Hpath.
  unfold AIOGraphite._to_graphite_valid_metric_name.
  induction prefix as [|p prefix IH]; [contradiction|].
  destruct path as [|q path]; [contradiction|].
  destruct prefix as [|p' prefix].
  - cbn [app map]. rewrite join_dot_cons. reflexivity.
  - cbn [app map] in *. rewrite !join_dot_cons.
    rewrite IH by discriminate. rewrite <- app_assoc. reflexivity.
Qed.

Lemma name_of_concatenated_paths_witness :
  AIOGraphite._to_graphite_valid_metric_name (GraphiteEncoder.encode (lit "-"))
    ([lit "app"] ++ [lit "a.b"; lit "c"])
  = AIOGraphite._to_graphite_valid_metric_name (GraphiteEncoder.encode (lit "-")) [lit "app"]
    ++ lit "."
    ++ AIOGraphite._to_graphite_valid_metric_name (GraphiteEncoder.encode (lit "-"))
         [lit "a.b"; lit "c"].
Proof.
  apply (name_of_concatenated_paths (GraphiteEncoder.encode (lit "-"))
           [lit "app"] [lit "a.b"; lit "c"]); discriminate.
Defined.

Lemma split_at_first_dot : forall (x y r r' : pystr),
  ~ In 46 x -> ~ In 46 y -> x ++ 46 :: r = y ++ 46 :: r' -> x = y /\ r = r'.
Proof.
  induction x as [|a x IH]; intros [|b y] r r' Hx Hy E; cbn [app] in E.
  - split; [reflexivity | congruence].
  - exfalso. apply Hy. left. congruence.
  - exfalso. apply Hx. left. congruence.
  - assert (a = b) by congruence. subst b.
    destruct (IH y r r') as [-> ->].
    + intros H. apply Hx. now right.
    + intros H. apply Hy. now right.
    + congruence.
    + split; reflexivity.
Qed.

Lemma no_dot_no_split : forall (x y r : pystr), ~ In 46 x -> x <> y ++ 46 :: r.
Proof.
  intros x y r Hx E. apply Hx. rewrite E. apply in_or_app. right. now left.
Qed.

(** X16. When no escaped segment holds a dot, the name tells the escaped
    segments apart: two non-empty paths with the same name have the same
    escaped segments, one by one. *)
Theorem name_determines_escaped_segments : forall encode path1 path2,
  path1 <> [] -> path2 <> [] ->
  Forall (fun segment => ~ In 46 (encode segment)) path1 ->
  Forall (fun segment => ~ In 46 (encode segment)) path2 ->
  AIOGraphite._to_graphite_valid_metric_name encode path1
  = AIOGraphite._to_graphite_valid_metric_name encode path2 ->
  map encode path1 = map encode path2.
Proof.
  intros encode. unfold AIOGraphite._to_graphite_valid_metric_name.
  induction path1 as [|x xs IH]; intros path2 H1 H2 F1 F2 E; [contradiction|].
  destruct path2 as [|y ys]; [contradiction|].
  inversion F1 as [|? ? Hx Fxs]; subst. inversion F2 as [|? ? Hy Fys]; subst.
  destruct xs as [|x' xs], ys as [|y' ys]; cbn [map] in *.
  - cbn [join] in E. now rewrite E.
  - rewrite join_dot_cons in E. cbn [join] in E.
    exfalso. exact (no_dot_no_split _ _ _ Hx E).
  - rewrite join_dot_cons in E. cbn [join] in E.
    exfalso. symmetry in E. exact (no_dot_no_split _ _ _ Hy E).
  - rewrite !join_dot_cons in E.
    destruct (split_at_first_dot _ _ _ _ Hx Hy E) as [-> Erest].
    f_equal. apply (IH (y' :: ys)); try discriminate; assumption.
Qed.

Lemma name_determines_escaped_segments_witness :
  map (GraphiteEncoder.encode (lit "-")) [lit "a.b"; lit "c"]
  = map (GraphiteEncoder.encode (lit "-")) [lit "a.b"; lit "c"].
Proof.
  apply (name_determines_escaped_segments (GraphiteEncoder.encode (lit "-"))
           [lit "a.b"; lit "c"] [lit "a.b"; lit "c"]); try discriminate; try reflexivity;
    repeat constructor; vm_compute; intuition discriminate.
Defined.

(** ** Streams of messages *)

Lemma struct_pack_L_value : forall n header,
  struct_pack_L n = Ok header -> from_bytes_big header = n.
Proof.
  intros n header H. unfold struct_pack_L in H.
  destruct ((0 <=? n) && (n <=? 4294967295)) eqn:E; [|discriminate H].
  apply andb_true_iff in E. destruct E as [H0 H1]. apply Z.leb_le in H0, H1.
  assert (Eh : header = rev (Pickle.le_bytes 4 n)) by congruence.
  rewrite Eh. apply from_bytes_big_le4. lia.
Qed.

(** X17. The header frames the message on a stream: when a message of the
    Framed-Binary encoder is followed by any other bytes, the first four
    bytes of the stream tell where the message ends, and cutting there gives
    the message and what follows it. *)
Theorem framed_binary_message_is_cut_from_a_stream : forall units message rest,
  PickleProtocol.generate_message_function units = Ok message ->
  let stream := message ++ rest in
  let n := Z.to_nat (4 + from_bytes_big (firstn 4 stream)) in
  firstn n stream = message /\ skipn n stream = rest.
Proof.
  intros units message rest H. cbv zeta.
  destruct (generate_message_parts units message H) as (header & payload & _ & Hh & -> & Hl).
  pose proof (struct_pack_L_value _ _ Hh) as Hv.
  assert (Hfirst : firstn 4 ((header ++ payload) ++ rest) = header).
  { rewrite <- app_assoc. rewrite <- Hl at 1.
    rewrite firstn_app, firstn_all, Nat.sub_diag. cbn [firstn]. apply app_nil_r. }
  rewrite Hfirst, Hv.
  assert (Hn : Z.to_nat (4 + Pickle.len payload) = length (header ++ payload)).
  { unfold Pickle.len. rewrite length_app, Hl. lia. }
  rewrite Hn. split.
  - rewrite firstn_app, firstn_all, Nat.sub_diag. cbn [firstn]. apply app_nil_r.
  - rewrite skipn_app, skipn_all, Nat.sub_diag. reflexivity.
Qed.

Lemma framed_binary_message_is_cut_from_a_stream_witness :
  firstn (Z.to_nat (4 + from_bytes_big
                          (firstn 4 ([0; 0; 0; 6; 128; 2; 93; 113; 0; 46] ++ [0; 0; 0; 6]))))
    ([0; 0; 0; 6; 128; 2; 93; 113; 0; 46] ++ [0; 0; 0; 6])
  = [0; 0; 0; 6; 128; 2; 93; 113; 0; 46]
  /\ skipn (Z.to_nat (4 + from_bytes_big
                            (firstn 4 ([0; 0; 0; 6; 128; 2; 93; 113; 0; 46] ++ [0; 0; 0; 6]))))
       ([0; 0; 0; 6; 128; 2; 93; 113; 0; 46] ++ [0; 0; 0; 6])
     = [0; 0; 0; 6].
Proof.
  apply (framed_binary_message_is_cut_from_a_stream []
           [0; 0; 0; 6; 128; 2; 93; 113; 0; 46] [0; 0; 0; 6]).
  vm_compute. reflexivity.
Defined.

(** ** Line batches *)

Lemma encode_ascii_Ok : forall s message, encode_ascii s = Ok message -> message = s /\ ascii_str s.
Proof.
  intros s message H.
  destruct (encode_ascii_cases s) as [[Ha E]|[_ E]]; rewrite E in H; [|discriminate H].
  split; [congruence | exact Ha].
Qed.

(** X18. Line batches compose: when two batches each encode, the batch made
    of the first followed by the second encodes to the first message followed
    by the second, so that sending a batch in pieces puts the same bytes on
    the wire. *)
Theorem line_batches_concatenate : forall lines1 lines2 message1 message2,
  PlaintextProtocol.generate_message_function lines1 = Ok message1 ->
  PlaintextProtocol.generate_message_function lines2 = Ok message2 ->
  PlaintextProtocol.generate_message_function (lines1 ++ lines2)
  = Ok (message1 ++ message2).
Proof.
  intros lines1 lines2 message1 message2 H1 H2.
  unfold PlaintextProtocol.generate_message_function in *.
  rewrite join_empty_concat in *. rewrite concat_app.
  apply encode_ascii_Ok in H1, H2. destruct H1 as [-> A1]. destruct H2 as [-> A2].
  apply encode_ascii_ok. apply Forall_app. now split.
Qed.

Lemma line_batches_concatenate_witness :
  PlaintextProtocol.generate_message_function
    ([PlaintextProtocol.data_formate_function (lit "x") 5 100]
       ++ [PlaintextProtocol.data_formate_function (lit "y") 6 200])
  = Ok ((lit "x 5 100" ++ [10]) ++ (lit "y 6 200" ++ [10])).
Proof.
  apply (line_batches_concatenate
           [PlaintextProtocol.data_formate_function (lit "x") 5 100]
           [PlaintextProtocol.data_formate_function (lit "y") 6 200]);
    vm_compute; reflexivity.
Defined.

Lemma no_newline_in_digits : forall d,
  ~ In 10 (lit (DecimalString.NilEmpty.string_of_uint d)).
Proof.
  induction d as [|d IHd|d IHd|d IHd|d IHd|d IHd|d IHd|d IHd|d IHd|d IHd|d IHd];
    cbn [DecimalString.NilEmpty.string_of_uint];
    [intros [] | ..]; intros [E|E]; try (cbn in E; lia); exact (IHd E).
Qed.

Lemma no_newline_in_str_int : forall n, ~ In 10 (str_int n).
Proof.
  intros n. unfold str_int, DecimalString.NilZero.string_of_int.
  assert (Hu : forall d, ~ In 10 (lit (DecimalString.NilZero.string_of_uint d))).
  { intros d. unfold DecimalString.NilZero.string_of_uint.
    destruct d; try apply no_newline_in_digits. intros [E|[]]. cbn in E. lia. }
  destruct (Z.to_int n) as [d|d]; [apply Hu|].
  intros [E|E]; [cbn in E; lia | exact (Hu d E)].
Qed.

Lemma count_newlines_app : forall s t : pystr,
  count_occ Z.eq_dec (s ++ t) 10
  = Nat.add (count_occ Z.eq_dec s 10) (count_occ Z.eq_dec t 10).
Proof. intros s t. apply count_occ_app. Qed.

Lemma count_newlines_none : forall s : pystr, ~ In 10 s -> count_occ Z.eq_dec s 10 = 0%nat.
Proof. intros s H. now apply count_occ_not_In. Qed.

Lemma count_newlines_format_line : forall sample,
  ~ In 10 (fst (fst sample)) -> count_occ Z.eq_dec (format_line sample) 10 = 1%nat.
Proof.
  intros [[metric value] timestamp] Hm. cbn [fst] in Hm.
  unfold format_line, PlaintextProtocol.data_formate_function. cbn [join].
  rewrite !count_newlines_app.
  rewrite (count_newlines_none metric Hm).
  rewrite (count_newlines_none (str_int value) (no_newline_in_str_int value)).
  rewrite (count_newlines_none (str_int timestamp) (no_newline_in_str_int timestamp)).
  reflexivity.
Qed.

(** X19. A Line message holds one newline per sample: when no identifier of
    the batch holds a newline, the message has as many newline bytes as the
    batch has samples. *)
Theorem line_message_has_one_newline_per_sample : forall samples message,
  Forall (fun sample => ~ In 10 (fst (fst sample))) samples ->
  PlaintextProtocol.generate_message_function (map format_line samples) = Ok message ->
  count_occ Z.eq_dec message 10 = length samples.
Proof.
  intros samples message Hno H.
  unfold PlaintextProtocol.generate_message_function in H.
  rewrite join_empty_concat in H. apply encode_ascii_Ok in H. destruct H as [-> _].
  induction Hno as [|sample samples Hs _ IH]; [reflexivity|].
  cbn [map concat length]. rewrite count_newlines_app, IH.
  now rewrite (count_newlines_format_line sample Hs).
Qed.

Lemma line_message_has_one_newline_per_sample_witness :
  count_occ Z.eq_dec (lit "x 5 100" ++ [10] ++ lit "y 6 200" ++ [10]) 10 = 2%nat.
Proof.
  apply (line_message_has_one_newline_per_sample [(lit "x", 5, 100); (lit "y", 6, 200)]).
  - repeat constructor; vm_compute; intuition discriminate.
  - vm_compute. reflexivity.
Defined.
